(** * PolicyReady front end: stream decoder, job event loop and history store

    A shallow embedding of
    - [src/types] (the event and history record shapes),
    - [analyzeStream] of [src/lib/api.ts] (the newline-delimited decoder loop),
    - [getHistory] / [saveToHistory] of [src/lib/history.ts],
    - [handleFileSelect] of [src/app/page.tsx], in its two revisions: the one
      without a phase indicator and the one that derives a phase from status
      messages,
    followed by the properties of these functions.

    Conventions.  JavaScript numbers that carry counts and indices are [Z].
    Text produced by [TextDecoder] is a list of code points ([list Z]):
    the newline and the characters of the record marker are single UTF-16
    units and no half of a surrogate pair equals one of them, so cutting
    at newlines and testing the marker give the same on code points as on
    UTF-16 units.  The strings carried inside events are [string].  A JavaScript object used as
    [Record<number, T>] is a [gmap Z T]; a [Set<number>] is a [gset Z].
    Exceptions are explicit: a function that may throw returns a sum. *)

From Stdlib Require Import ZArith List Lia Bool.
From Stdlib.Strings Require Import String Ascii Byte.
From Stdlib Require Import DecimalString.
From stdpp Require Import base option list gmap.
Import ListNotations.
Local Open Scope Z_scope.

(* ===================================================================== *)
(** ** Record shapes ([src/types]) *)
(* ===================================================================== *)

Module Types.

Inductive ComplianceStatus := MET | NOT_MET | PARTIAL.

(** [confidence] is a number in [0,1]; it is carried around and never
    computed with, so it is kept as the decimal text of the record. *)
Record ComplianceAnswer := {
  question : string;
  status : ComplianceStatus;
  evidence : option string;
  source : option string;
  page : option Z;
  confidence : string;
  reasoning : string;
}.

Record AnalysisProgress := {
  answered : Z;
  total : Z;
  met : Z;
  not_met : Z;
  partial : Z;
}.

(** [SSEEvent]: the union discriminated by the [type] field. *)
Inductive SSEEvent :=
| SSEStatusEvent (message : string)
| SSEQuestionsEvent (questions : list string) (total : Z)
| SSEAnswerEvent (index : Z) (answer : ComplianceAnswer) (progress : AnalysisProgress)
| SSECompleteEvent (total met not_met partial : Z)
| SSEErrorEvent (message : string).

(** [Omit<AnalysisHistoryItem, "id" | "timestamp">] *)
Record HistoryPayload := {
  filename : string;
  totalQuestions : Z;
  h_met : Z;
  h_notMet : Z;
  h_partial : Z;
  h_questions : list string;
  h_answers : gmap Z ComplianceAnswer;
}.

Record AnalysisHistoryItem := {
  id : string;
  timestamp : string;
  payload : HistoryPayload;
}.

(** A thrown JavaScript value: an [Error] object with its message, or
    anything else. *)
Inductive thrown :=
| ErrorObject (message : string)
| NotAnError.

End Types.
Export Types.

(* ===================================================================== *)
(** ** [TextDecoder] in streaming mode

    [new TextDecoder()] is a UTF-8 decoder in replacement mode that strips a
    leading byte order mark.  [decode(value, { stream: true })] runs the
    decoder over the bytes of [value] and keeps the decoder state for the
    next call; nothing is flushed at the end of a chunk. *)
(* ===================================================================== *)

Module TextDecoder.

Record state := {
  code_point : Z;
  bytes_seen : Z;
  bytes_needed : Z;
  lower_boundary : Z;
  upper_boundary : Z;
  bom_seen : bool;
}.

Definition fresh (bom : bool) : state :=
  {| code_point := 0; bytes_seen := 0; bytes_needed := 0;
     lower_boundary := 0x80; upper_boundary := 0xBF; bom_seen := bom |}.

Definition init : state := fresh false.

Inductive result :=
| Continue
| CodePoint (cp : Z)
| DecodeError
| DecodeErrorRestore.

Definition in_range (lo hi b : Z) : bool := (lo <=? b) && (b <=? hi).

(** The handler of the UTF-8 decoder for one byte. *)
Definition handler (st : state) (b : Z) : state * result :=
  if bytes_needed st =? 0 then
    if in_range 0x00 0x7F b then (st, CodePoint b)
    else if in_range 0xC2 0xDF b then
      ({| code_point := Z.land b 0x1F; bytes_seen := bytes_seen st;
          bytes_needed := 1;
          lower_boundary := lower_boundary st;
          upper_boundary := upper_boundary st;
          bom_seen := bom_seen st |}, Continue)
    else if in_range 0xE0 0xEF b then
      ({| code_point := Z.land b 0xF; bytes_seen := bytes_seen st;
          bytes_needed := 2;
          lower_boundary := if b =? 0xE0 then 0xA0 else lower_boundary st;
          upper_boundary := if b =? 0xED then 0x9F else upper_boundary st;
          bom_seen := bom_seen st |}, Continue)
    else if in_range 0xF0 0xF4 b then
      ({| code_point := Z.land b 0x7; bytes_seen := bytes_seen st;
          bytes_needed := 3;
          lower_boundary := if b =? 0xF0 then 0x90 else lower_boundary st;
          upper_boundary := if b =? 0xF4 then 0x8F else upper_boundary st;
          bom_seen := bom_seen st |}, Continue)
    else (st, DecodeError)
  else if negb (in_range (lower_boundary st) (upper_boundary st) b) then
    (fresh (bom_seen st), DecodeErrorRestore)
  else
    let cp := Z.lor (Z.shiftl (code_point st) 6) (Z.land b 0x3F) in
    let seen := bytes_seen st + 1 in
    if negb (seen =? bytes_needed st) then
      ({| code_point := cp; bytes_seen := seen;
          bytes_needed := bytes_needed st;
          lower_boundary := 0x80; upper_boundary := 0xBF;
          bom_seen := bom_seen st |}, Continue)
    else (fresh (bom_seen st), CodePoint cp).

Definition REPLACEMENT : Z := 0xFFFD.
Definition BOM : Z := 0xFEFF.

Definition emitted (r : result) : list Z :=
  match r with
  | Continue => []
  | CodePoint cp => [cp]
  | DecodeError | DecodeErrorRestore => [REPLACEMENT]
  end.

(** One byte through the decoder; a restored byte is handled again. *)
Definition run_byte (st : state) (b : Z) : state * list Z :=
  let '(st1, r1) := handler st b in
  match r1 with
  | DecodeErrorRestore =>
      let '(st2, r2) := handler st1 b in (st2, REPLACEMENT :: emitted r2)
  | _ => (st1, emitted r1)
  end.

(** Serialising the decoded items: the first item is dropped when it is
    the byte order mark. *)
Fixpoint serialize (seen : bool) (items : list Z) : bool * list Z :=
  match items with
  | [] => (seen, [])
  | c :: rest =>
      if seen then let '(s, out) := serialize seen rest in (s, c :: out)
      else if c =? BOM then serialize true rest
      else let '(s, out) := serialize true rest in (s, c :: out)
  end.

Definition with_bom (st : state) (seen : bool) : state :=
  {| code_point := code_point st; bytes_seen := bytes_seen st;
     bytes_needed := bytes_needed st;
     lower_boundary := lower_boundary st;
     upper_boundary := upper_boundary st; bom_seen := seen |}.

Definition decode_byte (st : state) (b : byte) : state * list Z :=
  let '(st1, items) := run_byte st (Z.of_N (Byte.to_N b)) in
  let '(seen, out) := serialize (bom_seen st1) items in
  (with_bom st1 seen, out).

(** [decoder.decode(value, { stream: true })] *)
Fixpoint decode (st : state) (value : list byte) : state * list Z :=
  match value with
  | [] => (st, [])
  | b :: rest =>
      let '(st1, out1) := decode_byte st b in
      let '(st2, out2) := decode st1 rest in
      (st2, out1 ++ out2)
  end.

End TextDecoder.

(* ===================================================================== *)
(** ** [analyzeStream] ([src/lib/api.ts]) *)
(* ===================================================================== *)

Module Api.

Definition text := list Z.

Definition NEWLINE : Z := 10.

(** The code points of ["data: "]. *)
Definition DATA_PREFIX : text := [100; 97; 116; 97; 58; 32].

(** [buffer.split("\n")]: never empty. *)
Fixpoint split (buffer : text) : list text :=
  match buffer with
  | [] => [[]]
  | c :: rest =>
      if c =? NEWLINE then [] :: split rest
      else match split rest with
           | l :: ls => (c :: l) :: ls
           | [] => [[c]]
           end
  end.

(** [lines.pop()]: the last element ([undefined] when there is none) and
    the array without it. *)
Definition pop (lines : list text) : option text * list text :=
  (last lines, removelast lines).

(** [x || ""] on a string or [undefined]. *)
Definition or_empty (x : option text) : text :=
  match x with
  | Some (c :: s) => c :: s
  | _ => []
  end.

(** [line.startsWith(p)] *)
Fixpoint startsWith (line p : text) {struct p} : bool :=
  match p, line with
  | [], _ => true
  | a :: p', b :: line' => (a =? b) && startsWith line' p'
  | _ :: _, [] => false
  end.

(** [line.slice(n)] *)
Definition slice (n : nat) (line : text) : text := drop n line.

(** How the request ended up before the read loop. *)
Inductive source_end :=
| Done
| ReadRejected (err : thrown).

Inductive response :=
| FetchRejected (err : thrown)
| NotOk (detail : option string)
| NoBody
| Body (chunks : list (list byte)) (fin : source_end).

(** How the generator finished. *)
Inductive completion :=
| Returned
| Threw (err : thrown).

Section Decoder.

(** [JSON.parse(s) as SSEEvent]: [None] when [JSON.parse] throws. *)
Variable JSON_parse : text -> option SSEEvent.

(** The body of [for (const line of lines)]. *)
Definition yield_line (line : text) : list SSEEvent :=
  if startsWith line DATA_PREFIX then
    match JSON_parse (slice 6 line) with
    | Some data => [data]
    | None => []
    end
  else [].

Definition yield_lines (lines : list text) : list SSEEvent :=
  flat_map yield_line lines.

(** One iteration of [while (true)] with [done] false. *)
Definition on_chunk (st : TextDecoder.state * text) (value : list byte)
  : (TextDecoder.state * text) * list SSEEvent :=
  let '(decoder, buffer) := st in
  let '(decoder, decoded) := TextDecoder.decode decoder value in
  let buffer := buffer ++ decoded in
  let lines := split buffer in
  let '(popped, lines) := pop lines in
  let buffer := or_empty popped in
  ((decoder, buffer), yield_lines lines).

Fixpoint read_loop (st : TextDecoder.state * text) (chunks : list (list byte))
  : list SSEEvent :=
  match chunks with
  | [] => []
  | value :: rest =>
      let '(st', evs) := on_chunk st value in
      evs ++ read_loop st' rest
  end.

(** [error.detail || "Analysis failed"] *)
Definition detail_or_default (detail : option string) : string :=
  match detail with
  | Some (String c s) => String c s
  | _ => "Analysis failed"%string
  end.

(** The events yielded, in order, and how the generator ends.  The
    requests that only report to the local debug log are fire-and-forget
    and do not take part. *)
Definition analyzeStream (res : response) : list SSEEvent * completion :=
  match res with
  | FetchRejected err => ([], Threw err)
  | NotOk detail => ([], Threw (ErrorObject (detail_or_default detail)))
  | NoBody => ([], Threw (ErrorObject "No response body"))
  | Body chunks fin =>
      (read_loop (TextDecoder.init, []) chunks,
       match fin with
       | Done => Returned
       | ReadRejected err => Threw err
       end)
  end.

End Decoder.

(** *** Streams of records, for stating what the loop does *)

(** The text decoded from all the bytes of a stream. *)
Definition decoded_text (chunks : list (list byte)) : text :=
  snd (TextDecoder.decode TextDecoder.init (concat chunks)).

(** Records, each closed by a newline. *)
Definition framed (records : list text) : text :=
  flat_map (fun r => r ++ [NEWLINE]) records.

(** No newline inside a record. *)
Definition no_newline (r : text) : bool :=
  forallb (fun c => negb (c =? NEWLINE)) r.

(** A record that carries [payload] after the marker. *)
Definition record_line (payload : text) : text := DATA_PREFIX ++ payload.

(** A record that parses to [snd r]: its payload [fst r] has no newline
    and [JSON.parse] accepts it. *)
Definition valid_record (JSON_parse : text -> option SSEEvent)
    (r : text * SSEEvent) : Prop :=
  no_newline (fst r) = true /\ JSON_parse (fst r) = Some (snd r).

End Api.

(* ===================================================================== *)
(** ** The history store ([src/lib/history.ts])

    [localStorage] holds one record under [HISTORY_KEY].  What
    [JSON.stringify] writes and [JSON.parse] reads back is kept as the typed
    collection itself.  [typeof window === "undefined"] is the field
    [window_defined]; without a window [localStorage] is not defined and
    every use of it throws.  Whether a write fits the store is decided by
    the environment: [accepts]. *)
(* ===================================================================== *)

Module History.

Definition MAX_HISTORY_ITEMS : nat := 50.

(** The value of [localStorage.getItem(HISTORY_KEY)]: [null], a text that
    is empty or on which [JSON.parse] throws, or the text of a collection.
    [getHistory] is typed [AnalysisHistoryItem[]]; a stored text that
    parses to anything else is outside that type and has no case here. *)
Inductive stored :=
| Missing
| Unparseable
| Serialized (items : list AnalysisHistoryItem).

Record Storage := {
  window_defined : bool;
  item : stored;
  accepts : list AnalysisHistoryItem -> bool;
  rejection : thrown;
}.

Definition getHistory (s : Storage) : list AnalysisHistoryItem :=
  if negb (window_defined s) then []
  else match item s with
       | Missing => []
       | Unparseable => []
       | Serialized items => items
       end.

(** [localStorage.setItem(HISTORY_KEY, JSON.stringify(v))]: [None] when
    it throws. *)
Definition setItem (s : Storage) (v : list AnalysisHistoryItem) : option Storage :=
  if window_defined s && accepts s v then
    Some {| window_defined := window_defined s; item := Serialized v;
            accepts := accepts s; rejection := rejection s |}
  else None.

(** [uuid] is the value of [crypto.randomUUID()], [now] the value of
    [new Date().toISOString()]. *)
Definition saveToHistory (uuid now : string) (it : HistoryPayload) (s : Storage)
  : Storage * (AnalysisHistoryItem + thrown) :=
  let history := getHistory s in
  let newItem := {| id := uuid; timestamp := now; payload := it |} in
  let updated := take MAX_HISTORY_ITEMS (newItem :: history) in
  match setItem s updated with
  | Some s' => (s', inl newItem)
  | None =>
      let trimmed := take 10 updated in
      match setItem s trimmed with
      | Some s' => (s', inl newItem)
      | None => (s, inr (rejection s))
      end
  end.

(** Appending one after the other; [None] as soon as one call throws. *)
Fixpoint save_all (reqs : list (string * string * HistoryPayload)) (s : Storage)
  : option Storage :=
  match reqs with
  | [] => Some s
  | (uuid, now, it) :: rest =>
      match saveToHistory uuid now it s with
      | (s', inl _) => save_all rest s'
      | (_, inr _) => None
      end
  end.

(** The entry a call creates from its three inputs. *)
Definition entry_of (r : string * string * HistoryPayload) : AnalysisHistoryItem :=
  {| id := r.1.1; timestamp := r.1.2; payload := r.2 |}.

(** A store in a browser that takes every collection within the cap. *)
Definition has_room (s : Storage) : Prop :=
  window_defined s = true /\
  forall v, (length v <= MAX_HISTORY_ITEMS)%nat -> accepts s v = true.

(** Every append of the series is stored by its first write: none of the
    writes the series makes is rejected. *)
Fixpoint stored_in_full (reqs : list (string * string * HistoryPayload)) (s : Storage)
  : Prop :=
  match reqs with
  | [] => True
  | r :: rest =>
      match setItem s (take MAX_HISTORY_ITEMS (entry_of r :: getHistory s)) with
      | Some s' => stored_in_full rest s'
      | None => False
      end
  end.

End History.

(* ===================================================================== *)
(** ** What both revisions of the page share *)
(* ===================================================================== *)

Module Runtime.

Inductive AnalysisState := st_idle | st_analyzing | st_complete | st_error.
Inductive Tab := tab_analyze | tab_history.

(** The browser around the handler: the store, and the values that
    [crypto.randomUUID()] and [new Date().toISOString()] give at their
    n-th use. *)
Record World := {
  localStorage : History.Storage;
  randomUUID : nat -> string;
  toISOString : nat -> string;
  uses : nat;
}.

Definition World_saveToHistory (it : HistoryPayload) (w : World)
  : World * (AnalysisHistoryItem + thrown) :=
  let '(s, r) := History.saveToHistory (randomUUID w (uses w)) (toISOString w (uses w))
                   it (localStorage w) in
  ({| localStorage := s; randomUUID := randomUUID w;
      toISOString := toISOString w; uses := S (uses w) |}, r).

(** [err instanceof Error ? err.message : "Analysis failed"] *)
Definition message_of (err : thrown) : string :=
  match err with
  | ErrorObject m => m
  | NotAnError => "Analysis failed"%string
  end.

(** [s.includes(sub)] *)
Fixpoint includes (s sub : string) : bool :=
  if String.prefix sub s then true
  else match s with
       | EmptyString => false
       | String _ s' => includes s' sub
       end.

(** [event.type === "complete"] *)
Definition is_complete (event : SSEEvent) : bool :=
  match event with
  | SSECompleteEvent _ _ _ _ => true
  | _ => false
  end.

End Runtime.
Export Runtime.

(* ===================================================================== *)
(** ** [handleFileSelect] of [src/app/page.tsx]

    The component state touched by the handler, the handler's local
    variables, and the browser.  [indexStats] is not touched by the handler
    and is left out. *)
(* ===================================================================== *)

Module Page.

Record State := {
  activeTab : Tab;
  analysisState : AnalysisState;
  status : string;
  questions : list string;
  answers : gmap Z ComplianceAnswer;
  progress : option AnalysisProgress;
  error : option string;
  currentFilename : string;
  historyCount : nat;
}.

Definition setActiveTab v s :=
  Build_State v (analysisState s) (status s) (questions s) (answers s)
    (progress s) (error s) (currentFilename s) (historyCount s).
Definition setAnalysisState v s :=
  Build_State (activeTab s) v (status s) (questions s) (answers s)
    (progress s) (error s) (currentFilename s) (historyCount s).
Definition setStatus v s :=
  Build_State (activeTab s) (analysisState s) v (questions s) (answers s)
    (progress s) (error s) (currentFilename s) (historyCount s).
Definition setQuestions v s :=
  Build_State (activeTab s) (analysisState s) (status s) v (answers s)
    (progress s) (error s) (currentFilename s) (historyCount s).
Definition setAnswers v s :=
  Build_State (activeTab s) (analysisState s) (status s) (questions s) v
    (progress s) (error s) (currentFilename s) (historyCount s).
Definition setProgress v s :=
  Build_State (activeTab s) (analysisState s) (status s) (questions s)
    (answers s) v (error s) (currentFilename s) (historyCount s).
Definition setError v s :=
  Build_State (activeTab s) (analysisState s) (status s) (questions s)
    (answers s) (progress s) v (currentFilename s) (historyCount s).
Definition setCurrentFilename v s :=
  Build_State (activeTab s) (analysisState s) (status s) (questions s)
    (answers s) (progress s) (error s) v (historyCount s).
Definition setHistoryCount v s :=
  Build_State (activeTab s) (analysisState s) (status s) (questions s)
    (answers s) (progress s) (error s) (currentFilename s) v.

(** The handler's locals together with what it mutates. *)
Record Job := {
  ui : State;
  finalQuestions : list string;
  finalAnswers : gmap Z ComplianceAnswer;
  finalProgress : option AnalysisProgress;
  world : World;
}.

Inductive outcome :=
| Next (j : Job)
| Raised (err : thrown) (j : Job).

(** One pass through the [switch (event.type)]. *)
Definition on_event (file_name : string) (event : SSEEvent) (j : Job) : outcome :=
  match event with
  | SSEStatusEvent message =>
      Next {| ui := setStatus message (ui j);
              finalQuestions := finalQuestions j;
              finalAnswers := finalAnswers j;
              finalProgress := finalProgress j;
              world := world j |}
  | SSEQuestionsEvent qs t =>
      Next {| ui := setProgress
                      (Some {| answered := 0; total := t; met := 0;
                               not_met := 0; partial := 0 |})
                      (setQuestions qs (ui j));
              finalQuestions := qs;
              finalAnswers := finalAnswers j;
              finalProgress := finalProgress j;
              world := world j |}
  | SSEAnswerEvent index answer pr =>
      Next {| ui := setProgress (Some pr)
                      (setAnswers (<[index := answer]> (answers (ui j))) (ui j));
              finalQuestions := finalQuestions j;
              finalAnswers := <[index := answer]> (finalAnswers j);
              finalProgress := Some pr;
              world := world j |}
  | SSECompleteEvent t m n p =>
      let fp := {| answered := t; total := t; met := m;
                   not_met := n; partial := p |} in
      let ui1 := setProgress (Some fp) (setAnalysisState st_complete (ui j)) in
      let '(w, r) :=
        World_saveToHistory
          {| filename := file_name; totalQuestions := t; h_met := m;
             h_notMet := n; h_partial := p;
             h_questions := finalQuestions j;
             h_answers := finalAnswers j |} (world j) in
      match r with
      | inl _ =>
          Next {| ui := setHistoryCount
                          (length (History.getHistory (localStorage w))) ui1;
                  finalQuestions := finalQuestions j;
                  finalAnswers := finalAnswers j;
                  finalProgress := Some fp;
                  world := w |}
      | inr err =>
          Raised err {| ui := ui1;
                        finalQuestions := finalQuestions j;
                        finalAnswers := finalAnswers j;
                        finalProgress := Some fp;
                        world := w |}
      end
  | SSEErrorEvent message =>
      Next {| ui := setError (Some message) (setAnalysisState st_error (ui j));
              finalQuestions := finalQuestions j;
              finalAnswers := finalAnswers j;
              finalProgress := finalProgress j;
              world := world j |}
  end.

(** [for await (const event of ...)] over the events the generator yields. *)
Fixpoint for_await (file_name : string) (events : list SSEEvent) (j : Job) : outcome :=
  match events with
  | [] => Next j
  | event :: rest =>
      match on_event file_name event j with
      | Next j' => for_await file_name rest j'
      | Raised err j' => Raised err j'
      end
  end.

(** The [catch (err)] block. *)
Definition catch (err : thrown) (j : Job) : Job :=
  {| ui := setError (Some (message_of err)) (setAnalysisState st_error (ui j));
     finalQuestions := finalQuestions j;
     finalAnswers := finalAnswers j;
     finalProgress := finalProgress j;
     world := world j |}.

(** The [try] statement, given what the generator yields and how it ends. *)
Definition consume (file_name : string) (gen : list SSEEvent * Api.completion) (j : Job) : Job :=
  match for_await file_name (fst gen) j with
  | Raised err j' => catch err j'
  | Next j' =>
      match snd gen with
      | Api.Returned => j'
      | Api.Threw err => catch err j'
      end
  end.

(** The statements before [try], and the declarations of the locals. *)
Definition start (file_name : string) (s : State) (w : World) : Job :=
  {| ui := setActiveTab tab_analyze
             (setCurrentFilename file_name
               (setError None
                 (setProgress None
                   (setAnswers ∅
                     (setQuestions []
                       (setStatus "Starting analysis..."
                         (setAnalysisState st_analyzing s)))))));
     finalQuestions := [];
     finalAnswers := ∅;
     finalProgress := None;
     world := w |}.

Definition handleFileSelect (JSON_parse : Api.text -> option SSEEvent)
    (file_name : string) (res : Api.response) (s : State) (w : World) : Job :=
  consume file_name (Api.analyzeStream JSON_parse res) (start file_name s w).

Definition job_of (o : outcome) : Job :=
  match o with
  | Next j => j
  | Raised _ j => j
  end.

(** The question cards of the questions list: each question with
    [answers[index] || null]. *)
Definition cards (s : State) : list (string * option ComplianceAnswer) :=
  imap (fun index question => (question, answers s !! Z.of_nat index)) (questions s).

End Page.

(* ===================================================================== *)
(** ** [handleFileSelect] of the page revision with a phase indicator

    The revision of [page.tsx] that keeps an [AnalysisPhase] and a set of
    indices being processed next to the state above. *)
(* ===================================================================== *)

Module PhasePage.

Inductive AnalysisPhase :=
| uploading | extracting | keywords | searching | analyzing | complete.

(** The position of a phase in the order
    uploading < extracting < keywords < searching < analyzing < complete. *)
Definition phase_rank (p : AnalysisPhase) : nat :=
  match p with
  | uploading => 0 | extracting => 1 | keywords => 2
  | searching => 3 | analyzing => 4 | complete => 5
  end.

Definition phase_le (p q : AnalysisPhase) : Prop := (phase_rank p <= phase_rank q)%nat.

Record State := {
  activeTab : Tab;
  analysisState : AnalysisState;
  phase : AnalysisPhase;
  status : string;
  questions : list string;
  answers : gmap Z ComplianceAnswer;
  progress : option AnalysisProgress;
  error : option string;
  currentFilename : string;
  historyCount : nat;
  processingIndices : gset Z;
}.

Definition setActiveTab v s :=
  Build_State v (analysisState s) (phase s) (status s) (questions s) (answers s)
    (progress s) (error s) (currentFilename s) (historyCount s) (processingIndices s).
Definition setAnalysisState v s :=
  Build_State (activeTab s) v (phase s) (status s) (questions s) (answers s)
    (progress s) (error s) (currentFilename s) (historyCount s) (processingIndices s).
Definition setPhase v s :=
  Build_State (activeTab s) (analysisState s) v (status s) (questions s) (answers s)
    (progress s) (error s) (currentFilename s) (historyCount s) (processingIndices s).
Definition setStatus v s :=
  Build_State (activeTab s) (analysisState s) (phase s) v (questions s) (answers s)
    (progress s) (error s) (currentFilename s) (historyCount s) (processingIndices s).
Definition setQuestions v s :=
  Build_State (activeTab s) (analysisState s) (phase s) (status s) v (answers s)
    (progress s) (error s) (currentFilename s) (historyCount s) (processingIndices s).
Definition setAnswers v s :=
  Build_State (activeTab s) (analysisState s) (phase s) (status s) (questions s) v
    (progress s) (error s) (currentFilename s) (historyCount s) (processingIndices s).
Definition setProgress v s :=
  Build_State (activeTab s) (analysisState s) (phase s) (status s) (questions s)
    (answers s) v (error s) (currentFilename s) (historyCount s) (processingIndices s).
Definition setError v s :=
  Build_State (activeTab s) (analysisState s) (phase s) (status s) (questions s)
    (answers s) (progress s) v (currentFilename s) (historyCount s) (processingIndices s).
Definition setCurrentFilename v s :=
  Build_State (activeTab s) (analysisState s) (phase s) (status s) (questions s)
    (answers s) (progress s) (error s) v (historyCount s) (processingIndices s).
Definition setHistoryCount v s :=
  Build_State (activeTab s) (analysisState s) (phase s) (status s) (questions s)
    (answers s) (progress s) (error s) (currentFilename s) v (processingIndices s).
Definition setProcessingIndices v s :=
  Build_State (activeTab s) (analysisState s) (phase s) (status s) (questions s)
    (answers s) (progress s) (error s) (currentFilename s) (historyCount s) v.

Record Job := {
  ui : State;
  finalQuestions : list string;
  finalAnswers : gmap Z ComplianceAnswer;
  finalProgress : option AnalysisProgress;
  world : World;
}.

Inductive outcome :=
| Next (j : Job)
| Raised (err : thrown) (j : Job).

(** The chain of [if]s of the [status] case ("Parse status to determine
    phase"): the phase to set, if any. *)
Definition phase_of_status (message : string) : option AnalysisPhase :=
  if includes message "Extracting questions" then Some extracting
  else if includes message "Extracting keywords" || includes message "keywords"
  then Some keywords
  else if includes message "Searching" || includes message "search"
  then Some searching
  else if includes message "Analyzing compliance" || includes message "compliance"
  then Some analyzing
  else None.

Definition on_event (file_name : string) (event : SSEEvent) (j : Job) : outcome :=
  match event with
  | SSEStatusEvent message =>
      let ui1 := setStatus message (ui j) in
      Next {| ui := match phase_of_status message with
                    | Some p => setPhase p ui1
                    | None => ui1
                    end;
              finalQuestions := finalQuestions j;
              finalAnswers := finalAnswers j;
              finalProgress := finalProgress j;
              world := world j |}
  | SSEQuestionsEvent qs t =>
      Next {| ui := setProcessingIndices ∅
                      (setProgress
                        (Some {| answered := 0; total := t; met := 0;
                                 not_met := 0; partial := 0 |})
                        (setPhase keywords (setQuestions qs (ui j))));
              finalQuestions := qs;
              finalAnswers := finalAnswers j;
              finalProgress := finalProgress j;
              world := world j |}
  | SSEAnswerEvent index answer pr =>
      Next {| ui := setProcessingIndices (processingIndices (ui j) ∖ {[ index ]})
                      (setProgress (Some pr)
                        (setAnswers (<[index := answer]> (answers (ui j))) (ui j)));
              finalQuestions := finalQuestions j;
              finalAnswers := <[index := answer]> (finalAnswers j);
              finalProgress := Some pr;
              world := world j |}
  | SSECompleteEvent t m n p =>
      let fp := {| answered := t; total := t; met := m;
                   not_met := n; partial := p |} in
      let ui1 := setProcessingIndices ∅
                   (setProgress (Some fp)
                     (setPhase complete (setAnalysisState st_complete (ui j)))) in
      let '(w, r) :=
        World_saveToHistory
          {| filename := file_name; totalQuestions := t; h_met := m;
             h_notMet := n; h_partial := p;
             h_questions := finalQuestions j;
             h_answers := finalAnswers j |} (world j) in
      match r with
      | inl _ =>
          Next {| ui := setHistoryCount
                          (length (History.getHistory (localStorage w))) ui1;
                  finalQuestions := finalQuestions j;
                  finalAnswers := finalAnswers j;
                  finalProgress := Some fp;
                  world := w |}
      | inr err =>
          Raised err {| ui := ui1;
                        finalQuestions := finalQuestions j;
                        finalAnswers := finalAnswers j;
                        finalProgress := Some fp;
                        world := w |}
      end
  | SSEErrorEvent message =>
      Next {| ui := setError (Some message) (setAnalysisState st_error (ui j));
              finalQuestions := finalQuestions j;
              finalAnswers := finalAnswers j;
              finalProgress := finalProgress j;
              world := world j |}
  end.

Fixpoint for_await (file_name : string) (events : list SSEEvent) (j : Job) : outcome :=
  match events with
  | [] => Next j
  | event :: rest =>
      match on_event file_name event j with
      | Next j' => for_await file_name rest j'
      | Raised err j' => Raised err j'
      end
  end.

Definition catch (err : thrown) (j : Job) : Job :=
  {| ui := setError (Some (message_of err)) (setAnalysisState st_error (ui j));
     finalQuestions := finalQuestions j;
     finalAnswers := finalAnswers j;
     finalProgress := finalProgress j;
     world := world j |}.

Definition consume (file_name : string) (gen : list SSEEvent * Api.completion) (j : Job) : Job :=
  match for_await file_name (fst gen) j with
  | Raised err j' => catch err j'
  | Next j' =>
      match snd gen with
      | Api.Returned => j'
      | Api.Threw err => catch err j'
      end
  end.

Definition start (file_name : string) (s : State) (w : World) : Job :=
  {| ui := setProcessingIndices ∅
             (setActiveTab tab_analyze
               (setCurrentFilename file_name
                 (setError None
                   (setProgress None
                     (setAnswers ∅
                       (setQuestions []
                         (setStatus "Uploading file..."
                           (setPhase uploading
                             (setAnalysisState st_analyzing s)))))))));
     finalQuestions := [];
     finalAnswers := ∅;
     finalProgress := None;
     world := w |}.

Definition handleFileSelect (JSON_parse : Api.text -> option SSEEvent)
    (file_name : string) (res : Api.response) (s : State) (w : World) : Job :=
  consume file_name (Api.analyzeStream JSON_parse res) (start file_name s w).

Definition job_of (o : outcome) : Job :=
  match o with
  | Next j => j
  | Raised _ j => j
  end.

(** The job as the consumer sees it while the loop has handled the first
    events of the stream: the state after them, through [catch] when one
    of them raised. *)
Definition observed (file_name : string) (events : list SSEEvent) (j : Job) : Job :=
  consume file_name (events, Api.Returned) j.

(** The phase an event sets by itself, if it sets one. *)
Definition designated (event : SSEEvent) : option AnalysisPhase :=
  match event with
  | SSEStatusEvent message => phase_of_status message
  | SSEQuestionsEvent _ _ => Some keywords
  | SSEAnswerEvent _ _ _ => None
  | SSECompleteEvent _ _ _ _ => Some complete
  | SSEErrorEvent _ => None
  end.

(** The phases designated along [events] never go down, starting at [p]. *)
Fixpoint in_phase_order (p : AnalysisPhase) (events : list SSEEvent) : Prop :=
  match events with
  | [] => True
  | event :: rest =>
      match designated event with
      | Some q => phase_le p q /\ in_phase_order q rest
      | None => in_phase_order p rest
      end
  end.

End PhasePage.

(* ===================================================================== *)
(** ** Concrete streams, stores and jobs *)
(* ===================================================================== *)

Module Samples.

Definition codes (s : string) : Api.text :=
  map (fun b => Z.of_N (Byte.to_N b)) (list_byte_of_string s).

(** JSON text, written with an apostrophe where JSON has a quotation mark. *)
Definition json (s : string) : Api.text :=
  map (fun c => if c =? 39 then 34 else c) (codes s).

Definition bytes_of (t : Api.text) : list byte :=
  map (fun c => default x00 (Byte.of_N (Z.to_N c))) t.

Definition status_record : Api.text :=
  json "{'type':'status','message':'Extracting questions from PDF'}".
Definition complete_record : Api.text :=
  json "{'type':'complete','total':1,'met':1,'not_met':0,'partial':0}".
Definition error_record : Api.text :=
  json "{'type':'error','message':'LLM quota exceeded'}".
Definition broken_record : Api.text :=
  json "{'type':'status','message':".

(** The values of [JSON.parse] on the records above; it throws on the
    broken one.  Any other text is rejected here. *)
Definition JSON_parse (t : Api.text) : option SSEEvent :=
  if bool_decide (t = status_record)
  then Some (SSEStatusEvent "Extracting questions from PDF")
  else if bool_decide (t = complete_record)
  then Some (SSECompleteEvent 1 1 0 0)
  else if bool_decide (t = error_record)
  then Some (SSEErrorEvent "LLM quota exceeded")
  else None.

Definition stream_of (payloads : list Api.text) : list byte :=
  bytes_of (Api.framed (map Api.record_line payloads)).

(** A stream cut in the middle of its first record. *)
Definition cut_at (n : nat) (bs : list byte) : list (list byte) :=
  [take n bs; drop n bs].

Definition stream_with_broken_record : list (list byte) :=
  cut_at 17 (stream_of [status_record; broken_record; complete_record]).

Definition answer_met : ComplianceAnswer :=
  {| question := "Is encryption used?"; status := MET;
     evidence := Some "All data at rest is encrypted."%string;
     source := Some "security.pdf"%string; page := Some 3;
     confidence := "0.9"; reasoning := "Stated in the policy." |}.

Definition answer_not_met : ComplianceAnswer :=
  {| question := "Is encryption used?"; status := NOT_MET;
     evidence := None; source := None; page := None;
     confidence := "0.4"; reasoning := "No evidence found." |}.

Definition progress_of (a t m n p : Z) : AnalysisProgress :=
  {| answered := a; total := t; met := m; not_met := n; partial := p |}.

Definition uuid_of (n : nat) : string :=
  String.append "uuid-" (NilZero.string_of_uint (Nat.to_uint n)).
Definition time_of (n : nat) : string :=
  String.append "2025-01-01T00:00:00.0" (NilZero.string_of_uint (Nat.to_uint n)).

Definition payload_of (n : nat) : HistoryPayload :=
  {| filename := String.append "audit-" (NilZero.string_of_uint (Nat.to_uint n));
     totalQuestions := 1; h_met := 1; h_notMet := 0; h_partial := 0;
     h_questions := ["Is encryption used?"%string];
     h_answers := {[ 0 := answer_met ]} |}.

Definition request (n : nat) : string * string * HistoryPayload :=
  (uuid_of n, time_of n, payload_of n).

Definition store (content : History.stored)
    (accepts : list AnalysisHistoryItem -> bool) : History.Storage :=
  {| History.window_defined := true; History.item := content;
     History.accepts := accepts;
     History.rejection := ErrorObject "QuotaExceededError" |}.

(** A store with nothing under the key and room for everything. *)
Definition empty_store : History.Storage := store History.Missing (fun _ => true).

(** A store that rejects every write. *)
Definition full_store : History.Storage := store History.Missing (fun _ => false).

(** A store holding twelve entries that has room for ten. *)
Definition tight_store : History.Storage :=
  store (History.Serialized (map (fun n => History.entry_of (request n)) (seq 100 12)))
        (fun v => (length v <=? 10)%nat).

Definition browser (s : History.Storage) : World :=
  {| localStorage := s; randomUUID := uuid_of; toISOString := time_of; uses := 0 |}.

Definition idle_page : Page.State :=
  {| Page.activeTab := tab_analyze; Page.analysisState := st_idle;
     Page.status := ""; Page.questions := []; Page.answers := ∅;
     Page.progress := None; Page.error := None;
     Page.currentFilename := ""; Page.historyCount := 0 |}.

Definition idle_phase_page : PhasePage.State :=
  {| PhasePage.activeTab := tab_analyze; PhasePage.analysisState := st_idle;
     PhasePage.phase := PhasePage.uploading;
     PhasePage.status := ""; PhasePage.questions := []; PhasePage.answers := ∅;
     PhasePage.progress := None; PhasePage.error := None;
     PhasePage.currentFilename := ""; PhasePage.historyCount := 0;
     PhasePage.processingIndices := ∅ |}.

Definition two_questions : SSEEvent :=
  SSEQuestionsEvent ["Is encryption used?"; "Is MFA enforced?"]%string 2.

(** The job of [page.tsx] once the two questions have arrived. *)
Definition job_with_two_questions : Page.Job :=
  Page.job_of
    (Page.for_await "audit.pdf" [two_questions]
       (Page.start "audit.pdf" idle_page (browser empty_store))).

(** A stream with a status record and an error record, ended normally. *)
Definition error_only_response : Api.response :=
  Api.Body (cut_at 9 (stream_of [status_record; error_record])) Api.Done.

(** A stream with the [complete] record whose next read is rejected. *)
Definition complete_then_reset : Api.response :=
  Api.Body (cut_at 9 (stream_of [complete_record]))
           (Api.ReadRejected (ErrorObject "network error")).

(** The job of the revision with a phase indicator, just started. *)
Definition phase_job : PhasePage.Job :=
  PhasePage.start "audit.pdf" idle_phase_page (browser empty_store).

Definition ordered_statuses : list SSEEvent :=
  [SSEStatusEvent "Extracting questions from PDF";
   two_questions;
   SSEStatusEvent "Extracting keywords";
   SSEStatusEvent "Searching policy index"].

End Samples.

(* ===================================================================== *)
(** ** The rest of the history store ([src/lib/history.ts]) *)
(* ===================================================================== *)

Module HistoryOps.

Import History.

(** [deleteFromHistory(id)]; the write is not guarded, so the exception of
    a rejected [setItem] leaves the function. *)
Definition deleteFromHistory (id0 : string) (s : Storage) : Storage + thrown :=
  let history := getHistory s in
  let updated := List.filter (fun item => negb (String.eqb (id item) id0)) history in
  match setItem s updated with
  | Some s' => inl s'
  | None => inr (rejection s)
  end.

(** [clearHistory()]: [localStorage.removeItem(HISTORY_KEY)]. *)
Definition clearHistory (s : Storage) : Storage + thrown :=
  if window_defined s then
    inl {| window_defined := window_defined s; item := Missing;
           accepts := accepts s; rejection := rejection s |}
  else inr (rejection s).

(** The ids of the stored entries. *)
Definition ids (s : Storage) : list string := map id (getHistory s).

End HistoryOps.

(* ===================================================================== *)
(** ** The handlers of the history panel ([src/components/HistoryPanel.tsx])

    The panel keeps its own copy of the collection in [history]. *)
(* ===================================================================== *)

Module HistoryPanel.

Import History HistoryOps.

Record Panel := {
  history : list AnalysisHistoryItem;
  storage : Storage;
}.

(** The effect run on mount: [setHistory(getHistory())]. *)
Definition mount (s : Storage) : Panel :=
  {| history := getHistory s; storage := s |}.

(** [handleDelete(id, e)]; an exception of [deleteFromHistory] leaves the
    handler before [setHistory]. *)
Definition handleDelete (id0 : string) (p : Panel) : Panel + thrown :=
  match deleteFromHistory id0 (storage p) with
  | inl s' => inl {| history := getHistory s'; storage := s' |}
  | inr err => inr err
  end.

(** [handleClearAll()], given the answer to [confirm(...)]. *)
Definition handleClearAll (confirmed : bool) (p : Panel) : Panel + thrown :=
  if confirmed then
    match clearHistory (storage p) with
    | inl s' => inl {| history := []; storage := s' |}
    | inr err => inr err
    end
  else inl p.

(** What the user does in the panel. *)
Inductive action :=
| Delete (id0 : string)
| ClearAll (confirmed : bool).

Definition act (a : action) (p : Panel) : Panel + thrown :=
  match a with
  | Delete id0 => handleDelete id0 p
  | ClearAll confirmed => handleClearAll confirmed p
  end.

(** The panel after a series of actions; a handler that throws leaves the
    panel as it was. *)
Fixpoint after (actions : list action) (p : Panel) : Panel :=
  match actions with
  | [] => p
  | a :: rest =>
      match act a p with
      | inl p' => after rest p'
      | inr _ => after rest p
      end
  end.

End HistoryPanel.

(* ===================================================================== *)
(** ** The other handlers of [src/app/page.tsx] *)
(* ===================================================================== *)

Module PageOps.

Import Page.

Definition handleReset (s : State) : State :=
  setCurrentFilename ""
    (setError None
      (setProgress None
        (setAnswers ∅
          (setQuestions []
            (setStatus ""
              (setAnalysisState st_idle s)))))).

Definition handleSelectHistory (item : AnalysisHistoryItem) (s : State) : State :=
  setActiveTab tab_analyze
    (setAnalysisState st_complete
      (setCurrentFilename (filename (payload item))
        (setProgress
           (Some {| answered := totalQuestions (payload item);
                    total := totalQuestions (payload item);
                    met := h_met (payload item);
                    not_met := h_notMet (payload item);
                    partial := h_partial (payload item) |})
           (setAnswers (h_answers (payload item))
             (setQuestions (h_questions (payload item)) s))))).

(** An event of type [complete] or [error]. *)
Definition is_terminal (event : SSEEvent) : bool :=
  match event with
  | SSECompleteEvent _ _ _ _ => true
  | SSEErrorEvent _ => true
  | _ => false
  end.

(** What is shown and what is kept for the history entry agree. *)
Definition shown_is_kept (j : Job) : Prop :=
  answers (ui j) = finalAnswers j /\ questions (ui j) = finalQuestions j.

End PageOps.

(* ===================================================================== *)
(** ** The rest of the page revision with a phase indicator *)
(* ===================================================================== *)

Module PhaseOps.

Import PhasePage.

(** [isQuestionProcessing(index)]: not in the analyzing phase gives
    [false], otherwise [!answers[index]]. *)
Definition isQuestionProcessing (s : State) (index : Z) : bool :=
  match phase s with
  | analyzing =>
      match answers s !! index with
      | Some _ => false
      | None => true
      end
  | _ => false
  end.

(** The state of this revision without what it adds to [page.tsx]. *)
Definition forget_state (s : State) : Page.State :=
  {| Page.activeTab := activeTab s;
     Page.analysisState := analysisState s;
     Page.status := status s;
     Page.questions := questions s;
     Page.answers := answers s;
     Page.progress := progress s;
     Page.error := error s;
     Page.currentFilename := currentFilename s;
     Page.historyCount := historyCount s |}.

Definition forget (j : Job) : Page.Job :=
  {| Page.ui := forget_state (ui j);
     Page.finalQuestions := finalQuestions j;
     Page.finalAnswers := finalAnswers j;
     Page.finalProgress := finalProgress j;
     Page.world := world j |}.

Definition forget_outcome (o : outcome) : Page.outcome :=
  match o with
  | Next j => Page.Next (forget j)
  | Raised err j => Page.Raised err (forget j)
  end.

(** The chain of [if]s of the status case with the two tests left out that
    a later test of the chain covers. *)
Definition phase_by_keyword (message : string) : option AnalysisPhase :=
  if includes message "Extracting questions" then Some extracting
  else if includes message "keywords" then Some keywords
  else if includes message "Searching" || includes message "search"
  then Some searching
  else if includes message "compliance" then Some analyzing
  else None.

End PhaseOps.

(* ===================================================================== *)
(** ** The phase indicators of [src/components/ProgressBar.tsx]

    The percentage of the bar is computed in floating point and is left
    out; the circles of the five phases are decided on integers. *)
(* ===================================================================== *)

Module ProgressBar.

Import PhasePage.

(** The [key] and [progressStart] columns of [phases]. *)
Definition phases : list (AnalysisPhase * Z) :=
  [(uploading, 0); (extracting, 10); (keywords, 25); (searching, 40); (analyzing, 50)].

Definition phase_eqb (p q : AnalysisPhase) : bool :=
  (phase_rank p =? phase_rank q)%nat.

(** [phases.findIndex((p) => p.key === phase)] *)
Fixpoint findIndex (phase : AnalysisPhase) (ps : list (AnalysisPhase * Z)) (from : Z) : Z :=
  match ps with
  | [] => -1
  | p :: rest => if phase_eqb (fst p) phase then from else findIndex phase rest (from + 1)
  end.

Definition getPhaseIndex (phase : AnalysisPhase) : Z :=
  let idx := findIndex phase phases 0 in
  if 0 <=? idx then idx else 0.

Definition isComplete (phase : AnalysisPhase) : bool := phase_eqb phase complete.

Definition isActive (phase : AnalysisPhase) (idx : Z) : bool :=
  (idx =? getPhaseIndex phase) && negb (isComplete phase).

Definition isDone (phase : AnalysisPhase) (idx : Z) : bool :=
  (idx <? getPhaseIndex phase) || isComplete phase.

(** The circle drawn for the phase at [idx]: the test of [isDone] comes
    first. *)
Inductive circle := Checked | Pulsing | Numbered.

Definition circle_at (phase : AnalysisPhase) (idx : Z) : circle :=
  if isDone phase idx then Checked
  else if isActive phase idx then Pulsing
  else Numbered.

Definition circles (phase : AnalysisPhase) : list circle :=
  imap (fun idx _ => circle_at phase (Z.of_nat idx)) phases.

End ProgressBar.

(* ===================================================================== *)
(** ** The address of the service ([src/lib/api.ts]) *)
(* ===================================================================== *)

Module ApiUrl.

(** Where the code runs: the host name of the page when there is a window,
    and the value of [process.env.NEXT_PUBLIC_API_URL]. *)
Record Env := {
  hostname : option string;
  NEXT_PUBLIC_API_URL : option string;
}.

(** [x || d] on a string or [undefined]. *)
Definition or_default (x : option string) (d : string) : string :=
  match x with
  | Some (String c s) => String c s
  | _ => d
  end.

Definition getApiUrl (env : Env) : string :=
  match hostname env with
  | Some h =>
      let isLocalhost := String.eqb h "localhost" || String.eqb h "127.0.0.1" in
      if isLocalhost then or_default (NEXT_PUBLIC_API_URL env) "http://localhost:8000"
      else ""
  | None => ""
  end.

Definition getApiPrefix (env : Env) : string :=
  let apiUrl := getApiUrl env in
  match apiUrl with
  | String _ _ => ""
  | EmptyString => "/api"
  end.

(** The address [analyzeStream] posts to. *)
Definition fullUrl (env : Env) : string :=
  String.append (getApiUrl env) (String.append (getApiPrefix env) "/analyze/stream").

End ApiUrl.

(* ===================================================================== *)
(** ** Lines of a stream, for stating what the loop yields *)
(* ===================================================================== *)

Module Framing.

Import Api.

(** A line of the stream: a record that parses to an event, or any other
    line. *)
Inductive stream_line :=
| Record_ (payload : text) (event : SSEEvent)
| Other (line : text).

Definition line_text (l : stream_line) : text :=
  match l with
  | Record_ payload _ => record_line payload
  | Other line => line
  end.

Definition line_events (l : stream_line) : list SSEEvent :=
  match l with
  | Record_ _ event => [event]
  | Other _ => []
  end.

(** A record is what it says; another line lacks the marker or carries
    what [JSON.parse] rejects. *)
Definition well_formed (JSON_parse : text -> option SSEEvent) (l : stream_line) : Prop :=
  match l with
  | Record_ payload event =>
      no_newline payload = true /\ JSON_parse payload = Some event
  | Other line =>
      no_newline line = true
      /\ (startsWith line DATA_PREFIX = false \/ JSON_parse (slice 6 line) = None)
  end.

Definition completion_of (fin : source_end) : completion :=
  match fin with
  | Done => Returned
  | ReadRejected err => Threw err
  end.

Definition is_ascii (c : Z) : bool := (0 <=? c) && (c <? 128).

(** The bytes of a text of ASCII characters. *)
Definition ascii_bytes (t : text) : list byte :=
  map (fun c => default x00 (Byte.of_N (Z.to_N c))) t.

End Framing.

(* ===================================================================== *)
(** ** More concrete streams and stores *)
(* ===================================================================== *)

Module MoreSamples.

Import Samples.

(** A store with room holding three entries. *)
Definition stocked_store : History.Storage :=
  store (History.Serialized (map (fun n => History.entry_of (request n)) (seq 100 3)))
        (fun _ => true).

(** A store with room whose content cannot be parsed. *)
Definition unreadable_store : History.Storage :=
  store History.Unparseable (fun _ => true).

(** The stocked store after [clearHistory]. *)
Definition cleared_store : History.Storage :=
  store History.Missing (fun _ => true).

Definition status_event : SSEEvent := SSEStatusEvent "Extracting questions from PDF".
Definition complete_event : SSEEvent := SSECompleteEvent 1 1 0 0.

(** A status record, a comment line, a record cut off in its JSON, and the
    complete record. *)
Definition mixed_lines : list Framing.stream_line :=
  [Framing.Record_ status_record status_event;
   Framing.Other (codes ": keepalive");
   Framing.Other (Api.record_line broken_record);
   Framing.Record_ complete_record complete_event].

Definition mixed_stream : list (list byte) :=
  cut_at 30 (Framing.ascii_bytes (Api.framed (map Framing.line_text mixed_lines))).

(** A status record closed by a newline and the complete record without
    one. *)
Definition unterminated_stream : list (list byte) :=
  cut_at 12
    (Framing.ascii_bytes
       (Api.framed [Api.record_line status_record] ++ Api.record_line complete_record)).

(** A stream with the status record alone. *)
Definition status_chunks : list (list byte) :=
  cut_at 9 (stream_of [status_record]).

(** A stream with the status record and the complete record. *)
Definition completed_response : Api.response :=
  Api.Body (cut_at 40 (stream_of [status_record; complete_record])) Api.Done.

(** An empty store with room for ten entries. *)
Definition room_for_ten : History.Storage :=
  store History.Missing (fun v => (length v <=? 10)%nat).

(** That store after fifty-one appends: the ten appended last. *)
Definition room_for_ten_after (reqs : list (string * string * HistoryPayload))
  : History.Storage :=
  store (History.Serialized (take 10 (rev (map History.entry_of reqs))))
        (fun v => (length v <=? 10)%nat).

(** The store after a deletion, the store itself when the deletion
    throws. *)
Definition after_delete (id0 : string) (s : History.Storage) : History.Storage :=
  match HistoryOps.deleteFromHistory id0 s with
  | inl s' => s'
  | inr _ => s
  end.

(** The job of [page.tsx] once the two questions and then [complete] have
    arrived. *)
Definition job_completed : Page.Job :=
  Page.job_of
    (Page.on_event "audit.pdf" (SSECompleteEvent 2 1 1 0) job_with_two_questions).

End MoreSamples.

(* ===================================================================== *)
(** * Properties *)
(* ===================================================================== *)

(** ** The decoder loop *)

Section DecoderFacts.

Import Api.

Variable JSON_parse : text -> option SSEEvent.

Lemma decode_app st a b :
  TextDecoder.decode st (a ++ b) =
    (fst (TextDecoder.decode (fst (TextDecoder.decode st a)) b),
     snd (TextDecoder.decode st a)
       ++ snd (TextDecoder.decode (fst (TextDecoder.decode st a)) b)).
Proof.
  revert st. induction a as [|x a IH]; intros st; simpl.
  - now destruct (TextDecoder.decode st b).
  - destruct (TextDecoder.decode_byte st x) as [st1 o1].
    rewrite IH.
    destruct (TextDecoder.decode st1 a) as [st2 o2]; simpl.
    now rewrite app_assoc.
Qed.

Lemma split_not_nil t : split t <> [].
Proof.
  destruct t as [|c t]; simpl; [discriminate|].
  destruct (c =? NEWLINE); [discriminate|].
  destruct (split t); discriminate.
Qed.

Lemma or_empty_Some (x : text) : or_empty (Some x) = x.
Proof. now destruct x. Qed.

Lemma split_app a b :
  split (a ++ b) =
    removelast (split a) ++ split (or_empty (last (split a)) ++ b).
Proof.
  induction a as [|c a IH]; [reflexivity|].
  cbn [app split].
  pose proof (split_not_nil a) as Ha.
  destruct (c =? NEWLINE) eqn:E.
  - rewrite IH. destruct (split a) as [|l ls]; [done|]. reflexivity.
  - rewrite IH. destruct (split a) as [|l ls]; [done|].
    destruct ls as [|l2 ls2].
    + cbn [removelast last app]. rewrite !or_empty_Some.
      cbn [app split]. now rewrite E.
    + cbn [removelast last app]. reflexivity.
Qed.

Lemma split_line (l rest : text) :
  NEWLINE ∉ l -> split (l ++ NEWLINE :: rest) = l :: split rest.
Proof.
  induction l as [|c l IH]; intros Hl; cbn [app split].
  - reflexivity.
  - apply not_elem_of_cons in Hl as [Hc Hl].
    destruct (Z.eqb_spec c NEWLINE) as [->|_]; [done|].
    now rewrite IH.
Qed.

Lemma split_framed (records : list text) (rest : text) :
  Forall (fun r => NEWLINE ∉ r) records ->
  split (framed records ++ rest) = records ++ split rest.
Proof.
  induction 1 as [|r records Hr _ IH]; [reflexivity|].
  cbn [framed flat_map]. rewrite <- !app_assoc. cbn [app].
  rewrite split_line by done. fold (framed records).
  now rewrite IH.
Qed.

Lemma split_no_newline (l : text) : NEWLINE ∉ l -> split l = [l].
Proof.
  induction l as [|c l IH]; intros Hl; cbn [split]; [reflexivity|].
  apply not_elem_of_cons in Hl as [Hc Hl].
  destruct (Z.eqb_spec c NEWLINE) as [->|_]; [done|].
  now rewrite IH.
Qed.

Lemma last_split_no_newline (t : text) :
  NEWLINE ∉ or_empty (last (split t)).
Proof.
  induction t as [|c t IH]; cbn [split].
  - cbn. apply not_elem_of_nil.
  - pose proof (split_not_nil t) as Ht.
    destruct (Z.eqb_spec c NEWLINE) as [->|Hc].
    + destruct (split t) as [|l ls]; [done|]. exact IH.
    + destruct (split t) as [|l ls]; [done|].
      destruct ls as [|l2 ls2]; [|exact IH].
      cbn [last] in *. rewrite or_empty_Some in *.
      apply not_elem_of_cons. split; [congruence|exact IH].
Qed.

Lemma removelast_app_ne {A} (xs ys : list A) :
  ys <> [] -> removelast (xs ++ ys) = xs ++ removelast ys.
Proof.
  intros Hys. induction xs as [|x xs IH]; [reflexivity|].
  cbn [app removelast]. rewrite IH.
  destruct (xs ++ ys) eqn:E; [|reflexivity].
  apply app_eq_nil in E as [_ ?]. done.
Qed.

Lemma yield_lines_app (xs ys : list text) :
  yield_lines JSON_parse (xs ++ ys) =
    yield_lines JSON_parse xs ++ yield_lines JSON_parse ys.
Proof. apply flat_map_app. Qed.

(** What the loop yields from a buffer without a newline: the events of
    the complete lines of everything read. *)
Lemma read_loop_lines chunks : forall st (buffer : text),
  NEWLINE ∉ buffer ->
  read_loop JSON_parse (st, buffer) chunks =
    yield_lines JSON_parse
      (removelast (split (buffer ++ snd (TextDecoder.decode st (concat chunks))))).
Proof.
  induction chunks as [|value rest IH]; intros st buffer Hb.
  - cbn. rewrite app_nil_r, split_no_newline by done. reflexivity.
  - cbn [read_loop on_chunk concat pop].
    rewrite decode_app.
    destruct (TextDecoder.decode st value) as [st1 s1]. cbn [fst snd].
    rewrite IH by apply last_split_no_newline.
    rewrite app_assoc, (split_app (buffer ++ s1)).
    rewrite removelast_app_ne by apply split_not_nil.
    now rewrite yield_lines_app.
Qed.

Lemma no_newline_spec (r : text) : no_newline r = true -> NEWLINE ∉ r.
Proof.
  induction r as [|c r IH]; cbn [no_newline forallb]; intros H.
  - apply not_elem_of_nil.
  - apply andb_prop in H as [Hc Hr]. apply not_elem_of_cons. split.
    + intros <-. now rewrite Z.eqb_refl in Hc.
    + now apply IH.
Qed.

Lemma record_line_no_newline payload :
  no_newline payload = true -> NEWLINE ∉ record_line payload.
Proof.
  intros H. unfold record_line. apply not_elem_of_app. split.
  - apply no_newline_spec. reflexivity.
  - now apply no_newline_spec.
Qed.

Lemma yield_record_line payload :
  yield_line JSON_parse (record_line payload) =
    match JSON_parse payload with Some data => [data] | None => [] end.
Proof. reflexivity. Qed.

Lemma yield_valid_records (rs : list (text * SSEEvent)) :
  Forall (valid_record JSON_parse) rs ->
  yield_lines JSON_parse (map (fun r => record_line (fst r)) rs) = map snd rs.
Proof.
  induction 1 as [|r rs [_ Hr] _ IH]; [reflexivity|].
  cbn [map yield_lines flat_map]. rewrite yield_record_line, Hr.
  cbn [app]. f_equal. exact IH.
Qed.

Lemma valid_records_no_newline (rs : list (text * SSEEvent)) :
  Forall (valid_record JSON_parse) rs ->
  Forall (fun l => NEWLINE ∉ l) (map (fun r => record_line (fst r)) rs).
Proof.
  induction 1 as [|r rs [Hn _] _ IH]; constructor; [|exact IH].
  now apply record_line_no_newline.
Qed.

(** A character cut between two chunks comes out whole: the euro sign, with
    its first byte in one chunk and the other two in the next. *)
Example decode_across_chunks :
  let first := TextDecoder.decode TextDecoder.init [xe2]%byte in
  let second := TextDecoder.decode (fst first) [x82; xac]%byte in
  snd first = [] /\ snd second = [0x20AC]
  /\ snd (TextDecoder.decode TextDecoder.init [xe2; x82; xac]%byte) = [0x20AC].
Proof. repeat split. Qed.

(** C1: however the bytes of a stream are cut into chunks, also in the
    middle of a record or of a character, [analyzeStream] yields the
    events, and ends the way, it does when all the bytes arrive as one
    chunk. *)
Theorem analyzeStream_chunking chunks fin :
  analyzeStream JSON_parse (Body chunks fin) =
    analyzeStream JSON_parse (Body [concat chunks] fin).
Proof.
  unfold analyzeStream. f_equal.
  rewrite !read_loop_lines by apply not_elem_of_nil.
  cbn [concat]. now rewrite app_nil_r.
Qed.

(** C8: in a stream of newline-closed records of which one, [bad], is
    rejected by [JSON.parse] and all others are valid, the decoder yields
    the events of all the others, in order, and then ends normally:
    nothing is raised and nothing after the bad record is lost. *)
Theorem malformed_record_dropped
    (before after : list (text * SSEEvent)) (bad : text) chunks :
  Forall (valid_record JSON_parse) before ->
  Forall (valid_record JSON_parse) after ->
  no_newline bad = true ->
  JSON_parse bad = None ->
  decoded_text chunks =
    framed (map (fun r => record_line (fst r)) before
            ++ record_line bad :: map (fun r => record_line (fst r)) after) ->
  analyzeStream JSON_parse (Body chunks Done) =
    (map snd before ++ map snd after, Returned).
Proof.
  intros Hb Ha Hn Hbad Htext.
  unfold analyzeStream. f_equal.
  rewrite read_loop_lines by apply not_elem_of_nil.
  cbn [app]. fold (decoded_text chunks). rewrite Htext.
  rewrite <- (app_nil_r (framed _)), split_framed.
  - cbn [split]. rewrite removelast_app_ne by discriminate.
    cbn [removelast]. rewrite app_nil_r, yield_lines_app.
    cbn [yield_lines flat_map]. rewrite yield_record_line, Hbad.
    cbn [app].
    change (flat_map (yield_line JSON_parse)) with (yield_lines JSON_parse).
    now rewrite !yield_valid_records.
  - apply Forall_app. split; [now apply valid_records_no_newline|].
    constructor; [now apply record_line_no_newline|].
    now apply valid_records_no_newline.
Qed.

End DecoderFacts.


(** ** The history store *)

Section HistoryFacts.

Import History.

Lemma take_app_take {A} (n : nat) (xs ys : list A) :
  take n (xs ++ take n ys) = take n (xs ++ ys).
Proof.
  rewrite !take_app, take_take. do 2 f_equal. lia.
Qed.

Lemma getHistory_setItem s v s' :
  setItem s v = Some s' -> getHistory s' = v /\ window_defined s = true.
Proof.
  unfold setItem. destruct (window_defined s) eqn:W; [|discriminate].
  destruct (accepts s v); [|discriminate].
  intros [= <-]. unfold getHistory. cbn. rewrite ?W. auto.
Qed.

Lemma setItem_has_room s v :
  has_room s -> (length v <= MAX_HISTORY_ITEMS)%nat ->
  exists s', setItem s v = Some s' /\ has_room s'.
Proof.
  intros [W A] Hv. unfold setItem. rewrite W, (A v Hv). cbn.
  eexists. split; [reflexivity|]. split; [reflexivity|exact A].
Qed.

(** With room in the store one call puts the new entry at the head and
    keeps the first [MAX_HISTORY_ITEMS]. *)
Lemma saveToHistory_has_room uuid now it s :
  has_room s ->
  exists s', saveToHistory uuid now it s = (s', inl (entry_of (uuid, now, it)))
    /\ getHistory s' = take MAX_HISTORY_ITEMS (entry_of (uuid, now, it) :: getHistory s)
    /\ has_room s'.
Proof.
  intros Hs. unfold saveToHistory.
  destruct (setItem_has_room s
              (take MAX_HISTORY_ITEMS (entry_of (uuid, now, it) :: getHistory s)) Hs)
    as (s' & E & Hs').
  { rewrite length_take. lia. }
  unfold entry_of in *. cbn [fst snd] in *. rewrite E.
  exists s'. split; [reflexivity|]. split; [|exact Hs'].
  now apply getHistory_setItem in E as [-> _].
Qed.

Lemma saveToHistory_first_write uuid now it (s s1 : Storage) :
  setItem s (take MAX_HISTORY_ITEMS (entry_of (uuid, now, it) :: getHistory s)) = Some s1 ->
  saveToHistory uuid now it s = (s1, inl (entry_of (uuid, now, it)))
  /\ getHistory s1 = take MAX_HISTORY_ITEMS (entry_of (uuid, now, it) :: getHistory s).
Proof.
  intros E. unfold saveToHistory, entry_of in *. cbn [fst snd] in *. rewrite E.
  split; [reflexivity|]. now apply getHistory_setItem in E as [-> _].
Qed.

Lemma save_all_stored_in_full reqs : forall s older,
  stored_in_full reqs s ->
  getHistory s = take MAX_HISTORY_ITEMS older ->
  exists s', save_all reqs s = Some s'
    /\ getHistory s' =
         take MAX_HISTORY_ITEMS (rev (map entry_of reqs) ++ older).
Proof.
  induction reqs as [|[[uuid now] it] rest IH]; intros s older Hfull Hold.
  - exists s. split; [reflexivity|exact Hold].
  - cbn [stored_in_full] in Hfull.
    destruct (setItem s _) as [s1|] eqn:E in Hfull; [|contradiction].
    apply saveToHistory_first_write in E as [E H1].
    cbn [save_all]. rewrite E.
    destruct (IH s1 (entry_of (uuid, now, it) :: older) Hfull) as (s' & E' & H').
    { rewrite H1, Hold.
      apply (take_app_take MAX_HISTORY_ITEMS [entry_of (uuid, now, it)] older). }
    exists s'. split; [exact E'|].
    rewrite H'. cbn [map rev]. now rewrite <- app_assoc.
Qed.

(** C6 (amended): when none of the writes is rejected, after more than 50
    sequential appends, from any stored state, [getHistory] returns the 50
    entries appended last, the latest first; and each single append whose
    write is taken puts its entry at the head and cuts the collection at
    50. *)
Theorem history_cap (s : Storage) (reqs : list (string * string * HistoryPayload)) :
  stored_in_full reqs s ->
  (50 < length reqs)%nat ->
  (exists s', save_all reqs s = Some s'
     /\ getHistory s' = take 50 (rev (map entry_of reqs)))
  /\ (forall uuid now it s1,
        setItem s (take 50 (entry_of (uuid, now, it) :: getHistory s)) = Some s1 ->
        saveToHistory uuid now it s = (s1, inl (entry_of (uuid, now, it)))
        /\ getHistory s1 = take 50 (entry_of (uuid, now, it) :: getHistory s)).
Proof.
  intros Hfull Hk. split.
  - destruct reqs as [|[[uuid now] it] rest]; [cbn in Hk; lia|].
    cbn [stored_in_full] in Hfull.
    destruct (setItem s _) as [s1|] eqn:E in Hfull; [|contradiction].
    apply saveToHistory_first_write in E as [E H1].
    destruct (save_all_stored_in_full rest s1 _ Hfull H1) as (s' & E' & H').
    exists s'. cbn [save_all]. rewrite E. split; [exact E'|].
    rewrite H'. cbn [map rev].
    change (entry_of (uuid, now, it) :: getHistory s)
      with ([entry_of (uuid, now, it)] ++ getHistory s).
    rewrite app_assoc. apply take_app_le.
    rewrite length_app, length_rev, length_map. cbn in *. lia.
  - intros uuid now it s1 E. now apply saveToHistory_first_write.
Qed.


(** C7 (amended): when the first write is rejected, [saveToHistory] writes
    once more, this time the 10 newest entries with the new one at the head;
    if that write is taken the call returns the new entry, and if it is
    rejected too the exception reaches the caller and the store is as it
    was. *)
Theorem saveToHistory_degrades uuid now (e : HistoryPayload) (s : Storage) :
  let newItem := entry_of (uuid, now, e) in
  let updated := take MAX_HISTORY_ITEMS (newItem :: getHistory s) in
  setItem s updated = None ->
  match setItem s (take 10 updated) with
  | Some s' =>
      saveToHistory uuid now e s = (s', inl newItem)
      /\ getHistory s' = newItem :: take 9 (getHistory s)
  | None =>
      saveToHistory uuid now e s = (s, inr (rejection s))
  end.
Proof.
  intros newItem updated Hfirst. subst newItem updated.
  unfold saveToHistory, entry_of in *. cbn [fst snd] in *. rewrite Hfirst.
  destruct (setItem s (take 10 _)) as [s'|] eqn:E; [|reflexivity].
  split; [reflexivity|].
  apply getHistory_setItem in E as [-> _].
  unfold MAX_HISTORY_ITEMS. cbn [take]. now rewrite take_take.
Qed.

End HistoryFacts.

(** ** The event loop of [page.tsx] *)

Section PageFacts.

Import Page.

Variable file_name : string.

Lemma for_await_app (xs ys : list SSEEvent) (j : Job) :
  for_await file_name (xs ++ ys) j =
    match for_await file_name xs j with
    | Next j' => for_await file_name ys j'
    | Raised err j' => Raised err j'
    end.
Proof.
  revert j. induction xs as [|x xs IH]; intros j; [reflexivity|].
  cbn [app for_await]. destruct (on_event file_name x j); [apply IH|reflexivity].
Qed.

(** Only a [complete] event reaches the store, and only it can raise. *)
Lemma on_event_not_complete (event : SSEEvent) (j : Job) :
  is_complete event = false ->
  exists j', on_event file_name event j = Next j' /\ world j' = world j.
Proof.
  destruct event; intros H; try discriminate H; cbn; eauto.
Qed.

Lemma for_await_not_complete (events : list SSEEvent) : forall j,
  Forall (fun event => is_complete event = false) events ->
  exists j', for_await file_name events j = Next j' /\ world j' = world j.
Proof.
  induction events as [|event rest IH]; intros j H.
  - now exists j.
  - apply Forall_cons in H as [He Hrest].
    destruct (on_event_not_complete event j He) as (j1 & E1 & W1).
    destruct (IH j1 Hrest) as (j' & E' & W').
    exists j'. cbn [for_await]. rewrite E1. split; [exact E'|congruence].
Qed.

Lemma progress_catch err j : progress (ui (catch err j)) = progress (ui j).
Proof. reflexivity. Qed.

Lemma progress_after_complete t m n p j :
  progress (ui (job_of (on_event file_name (SSECompleteEvent t m n p) j))) =
    Some {| answered := t; total := t; met := m; not_met := n; partial := p |}.
Proof.
  cbn [on_event]. destruct (World_saveToHistory _ _) as [w [item|err]]; reflexivity.
Qed.

(** C2: after any events that are not [complete] (answers that arrived,
    arrived twice, or never arrived), a [complete] event with totals
    [t], [m], [n], [p] leaves the progress snapshot
    [{answered: t, total: t, met: m, not_met: n, partial: p}], however the
    generator ends afterwards. *)
Theorem complete_sets_final_snapshot (before : list SSEEvent) t m n p fin (j : Job) :
  Forall (fun event => is_complete event = false) before ->
  progress (ui (consume file_name (before ++ [SSECompleteEvent t m n p], fin) j)) =
    Some {| answered := t; total := t; met := m; not_met := n; partial := p |}.
Proof.
  intros Hb. unfold consume. cbn [fst snd]. rewrite for_await_app.
  destruct (for_await_not_complete before j Hb) as (j1 & -> & _).
  cbn [for_await].
  pose proof (progress_after_complete t m n p j1) as H.
  destruct (on_event file_name (SSECompleteEvent t m n p) j1) as [j2|err j2];
    cbn [job_of] in H.
  - destruct fin; [exact H|now rewrite progress_catch].
  - now rewrite progress_catch.
Qed.

(** C4 (amended): an answer event whose index is outside the question list
    leaves the question list and every question card as they were, but it
    is stored: under its index in the answers shown and in the answers kept
    for the history entry, and its progress snapshot replaces the current
    one. *)
Theorem out_of_range_answer_stored (index : Z) answer pr (j : Job) :
  index < 0 \/ Z.of_nat (length (questions (ui j))) <= index ->
  exists j', on_event file_name (SSEAnswerEvent index answer pr) j = Next j'
    /\ questions (ui j') = questions (ui j)
    /\ cards (ui j') = cards (ui j)
    /\ answers (ui j') = <[index := answer]> (answers (ui j))
    /\ finalAnswers j' = <[index := answer]> (finalAnswers j)
    /\ progress (ui j') = Some pr.
Proof.
  intros Hout. eexists. split; [reflexivity|]. cbn.
  repeat split. unfold cards. cbn.
  apply imap_ext. intros i q Hi. f_equal.
  apply lookup_lt_Some in Hi.
  apply lookup_insert_ne. lia.
Qed.

(** C10: an answer event replaces whatever answer is installed at its
    index, in the answers shown and in the answers kept for the history
    entry, and replaces the progress snapshot by its own: the later event
    wins, a duplicate is not ignored. *)
Theorem answer_latest_wins (index : Z) answer pr (j : Job) :
  exists j', on_event file_name (SSEAnswerEvent index answer pr) j = Next j'
    /\ answers (ui j') !! index = Some answer
    /\ finalAnswers j' !! index = Some answer
    /\ answers (ui j') = <[index := answer]> (answers (ui j))
    /\ finalAnswers j' = <[index := answer]> (finalAnswers j)
    /\ progress (ui j') = Some pr
    /\ finalProgress j' = Some pr.
Proof.
  eexists. split; [reflexivity|]. cbn.
  rewrite !lookup_insert_eq. repeat split; reflexivity.
Qed.

End PageFacts.

Section PageStreamFacts.

Import Page.

Variable JSON_parse : Api.text -> option SSEEvent.

(** C5 (amended): a job to which the stream delivers no [complete] event
    leaves the browser, and with it the stored history, as it was: so for a
    request that could not be established, for a stream that only carries
    an error event, and for a read that fails before any [complete]. *)
Theorem no_complete_no_history_entry file_name (res : Api.response) (s : State) (w : World) :
  Forall (fun event => is_complete event = false)
    (fst (Api.analyzeStream JSON_parse res)) ->
  world (handleFileSelect JSON_parse file_name res s w) = w
  /\ History.getHistory (localStorage (world (handleFileSelect JSON_parse file_name res s w)))
     = History.getHistory (localStorage w).
Proof.
  intros H.
  assert (E : world (handleFileSelect JSON_parse file_name res s w) = w).
  { unfold handleFileSelect, consume.
    destruct (for_await_not_complete file_name _ (start file_name s w) H)
      as (j' & -> & W).
    destruct (snd _); exact W. }
  split; [exact E|now rewrite E].
Qed.

End PageStreamFacts.

(** ** The event loop of the page revision with a phase indicator *)

Section PhaseFacts.

Import PhasePage.

Variable file_name : string.

(** The handler sets the phase an event designates and otherwise leaves the
    phase alone; it never looks at the current phase. *)
Lemma phase_on_event (event : SSEEvent) (j : Job) :
  phase (ui (job_of (on_event file_name event j))) =
    default (phase (ui j)) (designated event).
Proof.
  destruct event as [message| | | |]; cbn [on_event designated].
  - cbn. now destruct (phase_of_status message).
  - reflexivity.
  - reflexivity.
  - destruct (World_saveToHistory _ _) as [w [item|err]]; reflexivity.
  - reflexivity.
Qed.

Lemma phase_catch err j : phase (ui (catch err j)) = phase (ui j).
Proof. reflexivity. Qed.

Lemma in_phase_order_step p event rest :
  in_phase_order p (event :: rest) ->
  phase_le p (default p (designated event))
  /\ in_phase_order (default p (designated event)) rest.
Proof.
  cbn [in_phase_order]. destruct (designated event) as [q|]; cbn [default].
  - tauto.
  - intros H. split; [unfold phase_le; lia|exact H].
Qed.

(** Along an event sequence whose events designate phases in
    non-decreasing order, the phase never goes down from one event to the
    next. *)
Lemma phase_le_in_order (before : list SSEEvent) (event : SSEEvent) (j : Job) :
  in_phase_order (phase (ui j)) (before ++ [event]) ->
  phase_le (phase (ui (observed file_name before j)))
           (phase (ui (observed file_name (before ++ [event]) j))).
Proof.
  revert j. induction before as [|e0 before IH]; intros j Hord.
  - apply in_phase_order_step in Hord as [Hle _].
    unfold observed, consume. cbn [fst snd app for_await].
    pose proof (phase_on_event event j) as Hp.
    destruct (on_event file_name event j) as [j1|err j1]; cbn [job_of] in Hp.
    + now rewrite Hp.
    + now rewrite phase_catch, Hp.
  - cbn [app] in Hord. apply in_phase_order_step in Hord as [_ Hrest].
    pose proof (phase_on_event e0 j) as Hp.
    unfold observed, consume in *. cbn [fst snd app for_await] in *.
    destruct (on_event file_name e0 j) as [j1|err j1]; cbn [job_of] in Hp.
    + rewrite <- Hp in Hrest. exact (IH j1 Hrest).
    + unfold phase_le. lia.
Qed.

Lemma phase_for_await_app (xs ys : list SSEEvent) (j : Job) :
  for_await file_name (xs ++ ys) j =
    match for_await file_name xs j with
    | Next j' => for_await file_name ys j'
    | Raised err j' => Raised err j'
    end.
Proof.
  revert j. induction xs as [|x xs IH]; intros j; [reflexivity|].
  cbn [app for_await]. destruct (on_event file_name x j); [apply IH|reflexivity].
Qed.

(** C3 (amended): the handler sets the phase from each event alone and
    never compares it with the current phase: once the events before it
    have been handled, the phase after an event is the phase that event
    designates, and the phase there was when it designates none.  So the
    phase never goes down along an event sequence whose events designate
    phases in non-decreasing order, and it goes down as soon as an event
    designates a phase below the current one. *)
Theorem phase_follows_events (before : list SSEEvent) (event : SSEEvent) (j : Job) :
  (forall j1, for_await file_name before j = Next j1 ->
     phase (ui (observed file_name (before ++ [event]) j)) =
       default (phase (ui j1)) (designated event))
  /\ (in_phase_order (phase (ui j)) (before ++ [event]) ->
      phase_le (phase (ui (observed file_name before j)))
               (phase (ui (observed file_name (before ++ [event]) j)))).
Proof.
  split; [|apply phase_le_in_order].
  intros j1 Hbefore. unfold observed, consume. cbn [fst snd].
  rewrite phase_for_await_app, Hbefore. cbn [for_await].
  pose proof (phase_on_event event j1) as Hp.
  destruct (on_event file_name event j1) as [j2|err j2]; cbn [job_of] in Hp.
  - exact Hp.
  - now rewrite phase_catch.
Qed.

End PhaseFacts.

(** ** The properties at concrete streams, stores and jobs *)

Section Instances.

Import Samples.

(** A status record, a record cut off in the middle of its JSON, and a
    complete record, delivered in two chunks cut inside the first record. *)
Lemma malformed_record_dropped_witness :
  Api.analyzeStream JSON_parse (Api.Body stream_with_broken_record Api.Done) =
    ([SSEStatusEvent "Extracting questions from PDF"; SSECompleteEvent 1 1 0 0],
     Api.Returned).
Proof.
  apply (malformed_record_dropped JSON_parse
           [(status_record, SSEStatusEvent "Extracting questions from PDF")]
           [(complete_record, SSECompleteEvent 1 1 0 0)]
           broken_record stream_with_broken_record).
  - repeat constructor.
  - repeat constructor.
  - reflexivity.
  - reflexivity.
  - vm_compute. reflexivity.
Defined.

(** Fifty-one appends to an empty store that takes every write. *)
Lemma history_cap_witness :
  exists s', History.save_all (map request (seq 0 51)) empty_store = Some s'
    /\ History.getHistory s' =
         take 50 (rev (map History.entry_of (map request (seq 0 51)))).
Proof.
  apply (history_cap empty_store (map request (seq 0 51))).
  - vm_compute. exact I.
  - vm_compute. lia.
Defined.

(** C6, as stated, fails: in a store with room for ten entries all of
    fifty-one appends return, each after its retry, and the ten entries
    appended last are what [getHistory] returns. *)
Lemma history_cap_fails_with_room_for_ten :
  History.save_all (map request (seq 0 51)) MoreSamples.room_for_ten
    = Some (MoreSamples.room_for_ten_after (map request (seq 0 51)))
  /\ length (History.getHistory
               (MoreSamples.room_for_ten_after (map request (seq 0 51)))) = 10%nat
  /\ History.getHistory (MoreSamples.room_for_ten_after (map request (seq 0 51)))
     <> take 50 (rev (map History.entry_of (map request (seq 0 51)))).
Proof.
  split; [vm_compute; reflexivity|].
  assert (L : length (History.getHistory
                (MoreSamples.room_for_ten_after (map request (seq 0 51)))) = 10%nat)
    by (vm_compute; reflexivity).
  split; [exact L|].
  intros E. rewrite E in L. vm_compute in L. discriminate L.
Qed.



(** The store with room for ten: the first write of thirteen entries is
    rejected, the retry with ten is taken. *)
Lemma saveToHistory_degrades_witness :
  let newItem := History.entry_of (request 0) in
  let r := History.saveToHistory (uuid_of 0) (time_of 0) (payload_of 0) tight_store in
  History.setItem tight_store
    (take History.MAX_HISTORY_ITEMS (newItem :: History.getHistory tight_store)) = None
  /\ snd r = inl newItem
  /\ History.getHistory (fst r) = newItem :: take 9 (History.getHistory tight_store).
Proof.
  intros newItem r.
  pose proof (saveToHistory_degrades (uuid_of 0) (time_of 0) (payload_of 0)
                tight_store eq_refl) as H.
  destruct (History.setItem tight_store (take 10 _)) as [s'|] eqn:E in H;
    [|discriminate E].
  destruct H as [Hsave Hlist]. subst r. rewrite Hsave.
  split; [reflexivity|]. split; [reflexivity|exact Hlist].
Defined.

(** C7, as stated, fails: at a store that rejects both writes the call
    throws, and the new entry is not stored. *)
Lemma saveToHistory_throws_when_retry_rejected :
  let r := History.saveToHistory (uuid_of 0) (time_of 0) (payload_of 0) full_store in
  History.setItem full_store [History.entry_of (request 0)] = None
  /\ snd r = inr (ErrorObject "QuotaExceededError")
  /\ History.getHistory (fst r) = [].
Proof. repeat split. Qed.

(** Two questions, the first answered twice, the second never, then
    [complete] with the totals of the server. *)
Lemma complete_sets_final_snapshot_witness :
  Page.progress (Page.ui
    (Page.consume "audit.pdf"
       ([two_questions;
         SSEAnswerEvent 0 answer_met (progress_of 1 2 1 0 0);
         SSEAnswerEvent 0 answer_met (progress_of 1 2 1 0 0)]
        ++ [SSECompleteEvent 2 1 1 0], Api.Returned)
       (Page.start "audit.pdf" idle_page (browser empty_store)))) =
    Some (progress_of 2 2 1 1 0).
Proof.
  apply (complete_sets_final_snapshot "audit.pdf"
           [two_questions;
            SSEAnswerEvent 0 answer_met (progress_of 1 2 1 0 0);
            SSEAnswerEvent 0 answer_met (progress_of 1 2 1 0 0)]
           2 1 1 0 Api.Returned).
  repeat constructor.
Defined.

(** Two questions and an answer for index 7. *)
Lemma out_of_range_answer_stored_witness :
  exists j',
    Page.on_event "audit.pdf" (SSEAnswerEvent 7 answer_met (progress_of 1 2 1 0 0))
      job_with_two_questions = Page.Next j'
    /\ Page.questions (Page.ui j') = Page.questions (Page.ui job_with_two_questions)
    /\ Page.cards (Page.ui j') = Page.cards (Page.ui job_with_two_questions)
    /\ Page.answers (Page.ui j') =
         <[7 := answer_met]> (Page.answers (Page.ui job_with_two_questions))
    /\ Page.finalAnswers j' =
         <[7 := answer_met]> (Page.finalAnswers job_with_two_questions)
    /\ Page.progress (Page.ui j') = Some (progress_of 1 2 1 0 0).
Proof.
  apply (out_of_range_answer_stored "audit.pdf" 7 answer_met (progress_of 1 2 1 0 0)
           job_with_two_questions).
  right. cbn. lia.
Defined.

(** C4, as stated, fails: with two questions extracted, an answer event for
    index 7 is stored in the answers shown and in the answers kept for the
    history entry. *)
Lemma out_of_range_answer_not_ignored :
  let j' := Page.job_of
              (Page.on_event "audit.pdf"
                 (SSEAnswerEvent 7 answer_met (progress_of 1 2 1 0 0))
                 job_with_two_questions) in
  length (Page.questions (Page.ui job_with_two_questions)) = 2%nat
  /\ Page.answers (Page.ui job_with_two_questions) !! 7 = None
  /\ Page.answers (Page.ui j') !! 7 = Some answer_met
  /\ Page.finalAnswers j' !! 7 = Some answer_met
  /\ Page.answers (Page.ui j') <> Page.answers (Page.ui job_with_two_questions).
Proof.
  cbn zeta.
  assert (H0 : Page.answers (Page.ui job_with_two_questions) !! 7 = None)
    by apply lookup_empty.
  assert (H1 : Page.answers (Page.ui (Page.job_of
                 (Page.on_event "audit.pdf"
                    (SSEAnswerEvent 7 answer_met (progress_of 1 2 1 0 0))
                    job_with_two_questions))) !! 7 = Some answer_met)
    by apply lookup_insert_eq.
  split; [reflexivity|]. split; [exact H0|]. split; [exact H1|].
  split; [apply lookup_insert_eq|].
  intros E. rewrite E, H0 in H1. discriminate H1.
Qed.

(** A stream that ends with an error record: the job fails and the twelve
    stored entries are untouched. *)
Lemma no_complete_no_history_entry_witness :
  let j := Page.handleFileSelect JSON_parse "audit.pdf" error_only_response
             idle_page (browser tight_store) in
  Page.analysisState (Page.ui j) = st_error
  /\ Page.world j = browser tight_store
  /\ History.getHistory (localStorage (Page.world j)) =
       History.getHistory (localStorage (browser tight_store)).
Proof.
  cbn zeta. split; [vm_compute; reflexivity|].
  apply (no_complete_no_history_entry JSON_parse "audit.pdf" error_only_response
           idle_page (browser tight_store)).
  vm_compute. repeat constructor.
Defined.

(** C5, as stated, fails: when the read fails after the [complete] record
    has been handled, the job ends in the error state and the history holds
    the entry written for it. *)
Lemma failed_job_with_history_entry :
  let j := Page.handleFileSelect JSON_parse "audit.pdf" complete_then_reset
             idle_page (browser empty_store) in
  Page.analysisState (Page.ui j) = st_error
  /\ Page.error (Page.ui j) = Some "network error"%string
  /\ History.getHistory (localStorage (browser empty_store)) = []
  /\ length (History.getHistory (localStorage (Page.world j))) = 1%nat
  /\ History.getHistory (localStorage (Page.world j)) <>
       History.getHistory (localStorage (browser empty_store)).
Proof.
  cbn zeta.
  assert (L : length (History.getHistory (localStorage (Page.world
                (Page.handleFileSelect JSON_parse "audit.pdf" complete_then_reset
                   idle_page (browser empty_store))))) = 1%nat)
    by (vm_compute; reflexivity).
  split; [vm_compute; reflexivity|]. split; [vm_compute; reflexivity|].
  split; [reflexivity|]. split; [exact L|].
  intros E. rewrite E in L. discriminate L.
Qed.

(** Status messages and the questions event in the order of the phases,
    then the message that announces the analysis: the phase goes from
    [searching] to [analyzing]. *)
Lemma phase_follows_events_witness :
  PhasePage.phase (PhasePage.ui
     (PhasePage.observed "audit.pdf" ordered_statuses phase_job))
    = PhasePage.searching
  /\ PhasePage.phase (PhasePage.ui
       (PhasePage.observed "audit.pdf"
          (ordered_statuses ++ [SSEStatusEvent "Analyzing compliance"]) phase_job))
     = PhasePage.analyzing
  /\ PhasePage.phase_le
       (PhasePage.phase (PhasePage.ui
          (PhasePage.observed "audit.pdf" ordered_statuses phase_job)))
       (PhasePage.phase (PhasePage.ui
          (PhasePage.observed "audit.pdf"
             (ordered_statuses ++ [SSEStatusEvent "Analyzing compliance"]) phase_job))).
Proof.
  destruct (phase_follows_events "audit.pdf" ordered_statuses
              (SSEStatusEvent "Analyzing compliance") phase_job) as [Hset Hmono].
  split; [reflexivity|]. split.
  - exact (Hset (PhasePage.job_of
                   (PhasePage.for_await "audit.pdf" ordered_statuses phase_job))
                eq_refl).
  - apply Hmono. vm_compute. lia.
Defined.

(** C3, as stated, fails: a status message about extracting questions that
    arrives after the search has been announced moves the phase from
    [searching] back to [extracting], and the job is not in the error
    state. *)
Lemma phase_moves_backward :
  let j1 := PhasePage.observed "audit.pdf"
              [SSEStatusEvent "Searching policy index"] phase_job in
  let j2 := PhasePage.observed "audit.pdf"
              ([SSEStatusEvent "Searching policy index"]
               ++ [SSEStatusEvent "Extracting questions from PDF"]) phase_job in
  PhasePage.phase (PhasePage.ui j1) = PhasePage.searching
  /\ PhasePage.phase (PhasePage.ui j2) = PhasePage.extracting
  /\ PhasePage.analysisState (PhasePage.ui j2) = st_analyzing
  /\ ~ (PhasePage.phase_le (PhasePage.phase (PhasePage.ui j1))
                           (PhasePage.phase (PhasePage.ui j2))
        \/ PhasePage.analysisState (PhasePage.ui j2) = st_error).
Proof.
  cbn zeta. split; [reflexivity|]. split; [reflexivity|]. split; [reflexivity|].
  intros [H|H]; [|discriminate H].
  vm_compute in H. lia.
Qed.

End Instances.


(** ** More of the history store *)

Section HistoryOpsFacts.

Import History HistoryOps.

(** What is stored once [saveToHistory] has returned: the new entry before
    the first 49, or after a retry the first 9, of the older ones. *)
Lemma saveToHistory_returned uuid now it s s' newItem :
  saveToHistory uuid now it s = (s', inl newItem) ->
  newItem = entry_of (uuid, now, it)
  /\ exists n, (n = 49 \/ n = 9)%nat
       /\ getHistory s' = newItem :: take n (getHistory s).
Proof.
  unfold saveToHistory, entry_of. cbn [fst snd]. intros H.
  destruct (setItem s _) as [s1|] eqn:E1 in H.
  - injection H as <- <-. split; [reflexivity|].
    apply getHistory_setItem in E1 as [-> _]. exists 49%nat. split; [now left|reflexivity].
  - destruct (setItem s _) as [s2|] eqn:E2 in H; [|discriminate].
    injection H as <- <-. split; [reflexivity|].
    apply getHistory_setItem in E2 as [-> _]. exists 9%nat. split; [now right|].
    unfold MAX_HISTORY_ITEMS. cbn [take]. now rewrite take_take.
Qed.

(** X1: whatever was stored before, also a collection longer than the cap
    written by someone else, once [saveToHistory] has returned the stored
    collection has between 1 and 50 entries. *)
Theorem saveToHistory_within_cap uuid now it (s s' : Storage) newItem :
  saveToHistory uuid now it s = (s', inl newItem) ->
  (1 <= length (getHistory s') <= 50)%nat.
Proof.
  intros H. apply saveToHistory_returned in H as (_ & n & Hn & ->).
  cbn [length]. rewrite length_take. lia.
Qed.

(** X2: when the ids stored are pairwise distinct and the new id is not
    among them, the ids stored after [saveToHistory] are pairwise distinct
    again. *)
Theorem saveToHistory_keeps_ids_distinct uuid now it (s s' : Storage) newItem :
  NoDup (ids s) ->
  uuid ∉ ids s ->
  saveToHistory uuid now it s = (s', inl newItem) ->
  NoDup (ids s').
Proof.
  intros Hnd Hfresh H. apply saveToHistory_returned in H as (-> & n & _ & E).
  unfold ids in *. rewrite E. cbn [map entry_of fst snd id].
  rewrite <- firstn_map. apply NoDup_cons. split.
  - intros Hin. apply Hfresh. eapply elem_of_sublist; [exact Hin|apply sublist_take].
  - eapply sublist_NoDup; [exact Hnd|apply sublist_take].
Qed.

Lemma filter_other_ids id0 (l : list AnalysisHistoryItem) :
  id0 ∉ map id l ->
  List.filter (fun item => negb (String.eqb (id item) id0)) l = l.
Proof.
  induction l as [|x l IH]; intros H; [reflexivity|].
  cbn [map] in H. apply not_elem_of_cons in H as [Hx Hl].
  cbn [List.filter]. destruct (String.eqb_spec (id x) id0) as [E|_].
  - now symmetry in E.
  - cbn [negb]. now rewrite IH.
Qed.

Lemma deleteFromHistory_returned id0 s s' :
  deleteFromHistory id0 s = inl s' ->
  getHistory s' =
    List.filter (fun item => negb (String.eqb (id item) id0)) (getHistory s).
Proof.
  unfold deleteFromHistory. destruct (setItem s _) as [s1|] eqn:E; [|discriminate].
  intros [= <-]. now apply getHistory_setItem in E as [-> _].
Qed.

(** X3: deleting an id that no stored entry carries leaves the collection
    as it is read. *)
Theorem delete_absent_id id0 (s s' : Storage) :
  id0 ∉ ids s ->
  deleteFromHistory id0 s = inl s' ->
  getHistory s' = getHistory s.
Proof.
  intros Habs H. rewrite (deleteFromHistory_returned _ _ _ H).
  now apply filter_other_ids.
Qed.

(** X4: after [deleteFromHistory] has returned no stored entry carries the
    id, and the entries with other ids are all there, in the order they
    had. *)
Theorem delete_removes_id id0 (s s' : Storage) :
  deleteFromHistory id0 s = inl s' ->
  (id0 ∉ ids s')
  /\ (getHistory s' `sublist_of` getHistory s)
  /\ (forall item, item ∈ getHistory s -> id item <> id0 -> item ∈ getHistory s').
Proof.
  intros H. unfold ids. rewrite (deleteFromHistory_returned _ _ _ H).
  split; [|split].
  - intros Hin. apply list_elem_of_In, in_map_iff in Hin as (x & Hx & Hin).
    apply filter_In in Hin as [_ Hne]. rewrite Hx, String.eqb_refl in Hne.
    discriminate Hne.
  - induction (getHistory s) as [|x l IH]; cbn [List.filter]; [constructor|].
    destruct (negb _); [now apply sublist_skip|now apply sublist_cons].
  - intros item Hin Hne. apply list_elem_of_In, filter_In. split.
    + now apply list_elem_of_In.
    + now destruct (String.eqb_spec (id item) id0).
Qed.

(** X5: in a store with room, an append under a new id followed by the
    deletion of that id gives back the collection that was stored, as long
    as it held fewer than 50 entries. *)
Theorem save_then_delete uuid now it (s : Storage) :
  has_room s ->
  uuid ∉ ids s ->
  (length (getHistory s) < 50)%nat ->
  exists s1 s2,
    saveToHistory uuid now it s = (s1, inl (entry_of (uuid, now, it)))
    /\ deleteFromHistory uuid s1 = inl s2
    /\ getHistory s2 = getHistory s.
Proof.
  intros Hroom Hfresh Hlen.
  destruct (saveToHistory_has_room uuid now it s Hroom) as (s1 & Hsave & H1 & Hroom1).
  assert (Hkept : List.filter (fun item => negb (String.eqb (id item) uuid))
                    (getHistory s1) = getHistory s).
  { rewrite H1. unfold MAX_HISTORY_ITEMS. cbn [take].
    rewrite take_ge by lia. cbn [List.filter entry_of fst snd id].
    rewrite String.eqb_refl. cbn [negb]. now apply filter_other_ids. }
  destruct (setItem_has_room s1 (getHistory s) Hroom1) as (s2 & Hset & _).
  { unfold MAX_HISTORY_ITEMS. lia. }
  exists s1, s2. split; [exact Hsave|].
  unfold deleteFromHistory. rewrite Hkept, Hset. split; [reflexivity|].
  now apply getHistory_setItem in Hset as [-> _].
Qed.

Lemma filter_one_id id0 (l : list AnalysisHistoryItem) :
  NoDup (map id l) ->
  id0 ∈ map id l ->
  S (length (List.filter (fun item => negb (String.eqb (id item) id0)) l)) = length l.
Proof.
  induction l as [|x l IH]; cbn [map]; intros Hnd Hin.
  - now apply elem_of_nil in Hin.
  - apply NoDup_cons in Hnd as [Hx Hnd]. cbn [List.filter length].
    destruct (String.eqb_spec (id x) id0) as [E|Hne]; cbn [negb].
    + rewrite filter_other_ids; [reflexivity|]. now rewrite <- E.
    + cbn [length]. f_equal. apply IH; [exact Hnd|].
      apply elem_of_cons in Hin as [E|Hin]; [now symmetry in E|exact Hin].
Qed.

(** X6: when the ids stored are pairwise distinct, deleting an id that is
    stored removes exactly one entry. *)
Theorem delete_removes_one id0 (s s' : Storage) :
  NoDup (ids s) ->
  id0 ∈ ids s ->
  deleteFromHistory id0 s = inl s' ->
  S (length (getHistory s')) = length (getHistory s).
Proof.
  intros Hnd Hin H. rewrite (deleteFromHistory_returned _ _ _ H).
  now apply filter_one_id.
Qed.

Lemma save_on_empty uuid now it (s s' : Storage) newItem :
  getHistory s = [] ->
  saveToHistory uuid now it s = (s', inl newItem) ->
  getHistory s' = [entry_of (uuid, now, it)]
  /\ item s' = Serialized [entry_of (uuid, now, it)].
Proof.
  intros Hempty H.
  unfold saveToHistory in H. rewrite Hempty in H.
  unfold MAX_HISTORY_ITEMS, setItem in H. cbn [take] in H.
  destruct (window_defined s) eqn:W; cbn [andb] in H; [|discriminate].
  destruct (accepts s _); [|discriminate].
  injection H as <- <-. unfold getHistory. cbn. now rewrite ?W.
Qed.

(** X7: a store whose content is missing or cannot be parsed reads as the
    empty collection, and the first append that returns replaces that
    content by the collection of the new entry alone. *)
Theorem save_over_unreadable uuid now it (s s' : Storage) newItem :
  item s = Unparseable \/ item s = Missing ->
  saveToHistory uuid now it s = (s', inl newItem) ->
  getHistory s = []
  /\ getHistory s' = [entry_of (uuid, now, it)]
  /\ item s' = Serialized [entry_of (uuid, now, it)].
Proof.
  intros Hitem H.
  assert (Hempty : getHistory s = []).
  { unfold getHistory. destruct (negb _); [reflexivity|].
    now destruct Hitem as [-> | ->]. }
  split; [exact Hempty|]. now apply (save_on_empty uuid now it s s' newItem).
Qed.

(** X8: [clearHistory] in a browser empties the store whatever it held, and
    the append after it stores the new entry alone. *)
Theorem clear_then_save uuid now it (s s1 s2 : Storage) newItem :
  clearHistory s = inl s1 ->
  saveToHistory uuid now it s1 = (s2, inl newItem) ->
  getHistory s1 = [] /\ getHistory s2 = [entry_of (uuid, now, it)].
Proof.
  intros Hclear Hsave.
  assert (Hempty : getHistory s1 = []).
  { unfold clearHistory in Hclear. destruct (window_defined s); [|discriminate].
    injection Hclear as <-. reflexivity. }
  split; [exact Hempty|].
  now apply (save_on_empty uuid now it s1 s2 newItem).
Qed.

End HistoryOpsFacts.

(** ** The history panel *)

Section HistoryPanelFacts.

Import History HistoryOps HistoryPanel.

Lemma act_in_sync (a : action) (p p' : Panel) :
  history p = getHistory (storage p) ->
  act a p = inl p' ->
  history p' = getHistory (storage p').
Proof.
  intros Hsync. destruct a as [id0|confirmed]; cbn [act].
  - unfold handleDelete. destruct (deleteFromHistory _ _); [|discriminate].
    now intros [= <-].
  - unfold handleClearAll. destruct confirmed; [|now intros [= <-]].
    unfold clearHistory. destruct (window_defined (storage p)) eqn:W; [|discriminate].
    intros [= <-]. reflexivity.
Qed.

(** X9: the list the history panel shows is the stored collection: after
    mounting and after any series of deletions and clearings, also when
    some of them throw or are not confirmed. *)
Theorem panel_shows_store (s : Storage) (actions : list action) :
  history (after actions (mount s)) =
    getHistory (storage (after actions (mount s))).
Proof.
  assert (H : forall p, history p = getHistory (storage p) ->
                history (after actions p) = getHistory (storage (after actions p))).
  { induction actions as [|a rest IH]; intros p Hp; [exact Hp|].
    cbn [after]. destruct (act a p) as [p'|err] eqn:E.
    - apply IH. now apply (act_in_sync a p p').
    - now apply IH. }
  now apply H.
Qed.

End HistoryPanelFacts.

(** ** More of the event loop of [page.tsx] *)

Section PageOpsFacts.

Import Page PageOps.

Variable JSON_parse : Api.text -> option SSEEvent.
Variable file_name : string.

Lemma on_event_shown_is_kept event j :
  shown_is_kept j -> shown_is_kept (job_of (on_event file_name event j)).
Proof.
  intros [Ha Hq]. destruct event; cbn [on_event].
  - now split.
  - now split.
  - split; cbn; [now rewrite Ha|exact Hq].
  - destruct (World_saveToHistory _ _) as [w [item|err]]; now split.
  - now split.
Qed.

Lemma for_await_shown_is_kept events : forall j,
  shown_is_kept j -> shown_is_kept (job_of (for_await file_name events j)).
Proof.
  induction events as [|event rest IH]; intros j Hj; [exact Hj|].
  cbn [for_await]. pose proof (on_event_shown_is_kept event j Hj) as H1.
  destruct (on_event file_name event j) as [j1|err j1]; cbn [job_of] in *.
  - now apply IH.
  - exact H1.
Qed.

Lemma consume_job_of gen j :
  consume file_name gen j = job_of (for_await file_name (fst gen) j)
  \/ exists err,
       consume file_name gen j = catch err (job_of (for_await file_name (fst gen) j)).
Proof.
  unfold consume. destruct (for_await file_name (fst gen) j) as [j1|err j1]; cbn [job_of].
  - destruct (snd gen) as [|err]; [now left|right; now exists err].
  - right. now exists err.
Qed.

(** X10: at the end of every job, whatever the response was, the questions
    and answers on the page are the ones the handler keeps for the history
    entry. *)
Theorem page_shows_what_it_keeps (res : Api.response) (s : State) (w : World) :
  let j := handleFileSelect JSON_parse file_name res s w in
  answers (ui j) = finalAnswers j /\ questions (ui j) = finalQuestions j.
Proof.
  cbn zeta. unfold handleFileSelect.
  assert (H : shown_is_kept (job_of (for_await file_name
                (fst (Api.analyzeStream JSON_parse res)) (start file_name s w)))).
  { apply for_await_shown_is_kept. now split. }
  destruct (consume_job_of (Api.analyzeStream JSON_parse res) (start file_name s w))
    as [-> | [err ->]]; exact H.
Qed.

(** X11: a new job does not depend on what the page showed before: started
    from a page that was reset, or from a page showing an entry picked from
    the history, it ends as it does started from the page as it was. *)
Theorem new_job_forgets_previous (res : Api.response) (s : State) (w : World)
    (item : AnalysisHistoryItem) :
  handleFileSelect JSON_parse file_name res (handleReset s) w
    = handleFileSelect JSON_parse file_name res s w
  /\ handleFileSelect JSON_parse file_name res (handleSelectHistory item s) w
    = handleFileSelect JSON_parse file_name res s w.
Proof. split; reflexivity. Qed.

Lemma on_event_not_terminal event j :
  is_terminal event = false ->
  exists j', on_event file_name event j = Next j'
    /\ analysisState (ui j') = analysisState (ui j)
    /\ error (ui j') = error (ui j)
    /\ world j' = world j.
Proof.
  destruct event; intros H; try discriminate H; cbn; eauto.
Qed.

Lemma for_await_not_terminal events : forall j,
  Forall (fun event => is_terminal event = false) events ->
  exists j', for_await file_name events j = Next j'
    /\ analysisState (ui j') = analysisState (ui j)
    /\ error (ui j') = error (ui j)
    /\ world j' = world j.
Proof.
  induction events as [|event rest IH]; intros j H.
  - exists j. auto.
  - apply Forall_cons in H as [He Hrest].
    destruct (on_event_not_terminal event j He) as (j1 & E1 & A1 & R1 & W1).
    destruct (IH j1 Hrest) as (j' & E' & A' & R' & W').
    exists j'. cbn [for_await]. rewrite E1. repeat split; congruence.
Qed.

(** X12: a stream that ends normally without a complete or an error event
    leaves the job in the analyzing state with no error shown, however many
    other events it carried. *)
Theorem no_terminal_event_stays_analyzing (res : Api.response) (s : State) (w : World) :
  snd (Api.analyzeStream JSON_parse res) = Api.Returned ->
  Forall (fun event => is_terminal event = false)
    (fst (Api.analyzeStream JSON_parse res)) ->
  let j := handleFileSelect JSON_parse file_name res s w in
  analysisState (ui j) = st_analyzing /\ error (ui j) = None /\ world j = w.
Proof.
  intros Hret Hev. cbn zeta. unfold handleFileSelect, consume.
  destruct (for_await_not_terminal _ (start file_name s w) Hev)
    as (j' & -> & A & R & W).
  rewrite Hret. auto.
Qed.

(** X13: when a read is rejected on a stream without a complete event, the
    job fails with the message of the rejection and keeps the questions,
    answers and progress received so far: the page is the one of the same
    stream ended normally, but for the state and the error. *)
Theorem read_failure_keeps_partial_results chunks err (s : State) (w : World) :
  Forall (fun event => is_complete event = false)
    (fst (Api.analyzeStream JSON_parse (Api.Body chunks Api.Done))) ->
  let failed := handleFileSelect JSON_parse file_name
                  (Api.Body chunks (Api.ReadRejected err)) s w in
  let ended := handleFileSelect JSON_parse file_name (Api.Body chunks Api.Done) s w in
  analysisState (ui failed) = st_error
  /\ error (ui failed) = Some (message_of err)
  /\ questions (ui failed) = questions (ui ended)
  /\ answers (ui failed) = answers (ui ended)
  /\ progress (ui failed) = progress (ui ended)
  /\ world failed = world ended.
Proof.
  intros Hev. cbn zeta. unfold handleFileSelect, consume.
  cbn [Api.analyzeStream fst snd] in *.
  destruct (for_await_not_complete file_name _ (start file_name s w) Hev)
    as (j' & -> & _).
  repeat split.
Qed.

(** X14: an answer event for the index of a question puts the answer on the
    card of that question and leaves the other cards as they are. *)
Theorem answer_in_range_updates_card (i : nat) (q : string) answer pr (j : Job) :
  questions (ui j) !! i = Some q ->
  exists j', on_event file_name (SSEAnswerEvent (Z.of_nat i) answer pr) j = Next j'
    /\ cards (ui j') = <[i := (q, Some answer)]> (cards (ui j)).
Proof.
  intros Hq. eexists. split; [reflexivity|].
  unfold cards. cbn. apply list_eq. intros k.
  rewrite list_lookup_imap.
  destruct (decide (k = i)) as [->|Hne].
  - rewrite list_lookup_insert_eq.
    + rewrite Hq. cbn. now rewrite lookup_insert_eq.
    + rewrite length_imap. now apply lookup_lt_Some in Hq.
  - rewrite list_lookup_insert_ne by congruence.
    rewrite list_lookup_imap.
    destruct (questions (ui j) !! k) as [qk|]; [|reflexivity].
    cbn. rewrite lookup_insert_ne; [reflexivity|lia].
Qed.

(** X15: when the complete event has been handled without an exception,
    the history count on the page is the number of stored entries, between
    1 and 50. *)
Theorem complete_shows_stored_count t m n p (j j' : Job) :
  on_event file_name (SSECompleteEvent t m n p) j = Next j' ->
  historyCount (ui j') = length (History.getHistory (localStorage (world j')))
  /\ (1 <= historyCount (ui j') <= 50)%nat.
Proof.
  cbn [on_event]. unfold World_saveToHistory.
  destruct (History.saveToHistory _ _ _ _) as [s' [item|err]] eqn:E; [|discriminate].
  intros [= <-]. cbn. split; [reflexivity|].
  apply saveToHistory_returned in E as (_ & k & Hk & ->).
  cbn [length]. rewrite length_take. lia.
Qed.

Lemma on_event_keeps_filename event j :
  currentFilename (ui (job_of (on_event file_name event j))) = currentFilename (ui j).
Proof.
  destruct event; cbn [on_event]; try reflexivity.
  destruct (World_saveToHistory _ _) as [w [item|err]]; reflexivity.
Qed.

Lemma for_await_keeps_filename events : forall j,
  currentFilename (ui (job_of (for_await file_name events j))) = currentFilename (ui j).
Proof.
  induction events as [|event rest IH]; intros j; [reflexivity|].
  cbn [for_await]. pose proof (on_event_keeps_filename event j) as H1.
  destruct (on_event file_name event j) as [j1|err j1]; cbn [job_of] in *.
  - now rewrite IH.
  - exact H1.
Qed.

(** X16: a job completed in a browser whose store has room puts its entry
    at the head of the history, and picking that entry from the history
    shows the page the job ended with: the same file name, questions,
    answers, progress and state. *)
Theorem select_saved_entry_restores (res : Api.response) (s : State) (w : World)
    (before : list SSEEvent) t m n p :
  History.has_room (localStorage w) ->
  Api.analyzeStream JSON_parse res = (before ++ [SSECompleteEvent t m n p], Api.Returned) ->
  Forall (fun event => is_complete event = false) before ->
  let j := handleFileSelect JSON_parse file_name res s w in
  exists item older,
    History.getHistory (localStorage (world j)) = item :: older
    /\ forall s0,
         let v := handleSelectHistory item s0 in
         currentFilename v = currentFilename (ui j)
         /\ questions v = questions (ui j)
         /\ answers v = answers (ui j)
         /\ progress v = progress (ui j)
         /\ analysisState v = analysisState (ui j).
Proof.
  intros Hroom Hgen Hbefore. cbn zeta. unfold handleFileSelect, consume.
  rewrite Hgen. cbn [fst snd]. rewrite for_await_app.
  pose proof (for_await_shown_is_kept before (start file_name s w)) as Hkept.
  pose proof (for_await_keeps_filename before (start file_name s w)) as Hname.
  destruct (for_await_not_complete file_name before (start file_name s w) Hbefore)
    as (j1 & E1 & W1).
  rewrite E1 in *. cbn [job_of] in *.
  destruct Hkept as [Ha Hq]; [now split|].
  cbn [for_await on_event]. unfold World_saveToHistory.
  rewrite W1. cbn [world start].
  destruct (saveToHistory_has_room (randomUUID w (uses w)) (toISOString w (uses w))
              {| filename := file_name; totalQuestions := t; h_met := m;
                 h_notMet := n; h_partial := p;
                 h_questions := finalQuestions j1;
                 h_answers := finalAnswers j1 |} (localStorage w) Hroom)
    as (s1 & -> & H1 & _).
  cbn [world localStorage]. rewrite H1.
  eexists _, _. split; [reflexivity|].
  intros s0. cbn. rewrite Hname, Ha, Hq. repeat split.
Qed.

End PageOpsFacts.

(** ** More of the page revision with a phase indicator *)

Section PhaseOpsFacts.

Import PhasePage PhaseOps.

Variable JSON_parse : Api.text -> option SSEEvent.
Variable file_name : string.

Lemma on_event_forget event j :
  forget_outcome (on_event file_name event j) = Page.on_event file_name event (forget j).
Proof.
  destruct event as [message| | | |]; cbn [on_event Page.on_event forget_outcome].
  - cbn. now destruct (phase_of_status message).
  - reflexivity.
  - reflexivity.
  - cbn [forget Page.world Page.finalQuestions Page.finalAnswers].
    destruct (World_saveToHistory _ _) as [w [item|err]]; reflexivity.
  - reflexivity.
Qed.

Lemma for_await_forget events : forall j,
  forget_outcome (for_await file_name events j)
    = Page.for_await file_name events (forget j).
Proof.
  induction events as [|event rest IH]; intros j; [reflexivity|].
  cbn [for_await Page.for_await]. rewrite <- on_event_forget.
  destruct (on_event file_name event j) as [j1|err j1]; cbn [forget_outcome].
  - apply IH.
  - reflexivity.
Qed.

(** X17: the revision with a phase indicator handles every stream as
    [page.tsx] does: leaving out the phase and the set of indices being
    processed, the job it ends with is the job [page.tsx] ends with. *)
Theorem phase_revision_agrees_with_page (gen : list SSEEvent * Api.completion) (j : Job) :
  forget (consume file_name gen j) = Page.consume file_name gen (forget j).
Proof.
  unfold consume, Page.consume. rewrite <- for_await_forget.
  destruct (for_await file_name (fst gen) j) as [j1|err j1]; cbn [forget_outcome].
  - now destruct (snd gen).
  - reflexivity.
Qed.

Lemma on_event_processing_empty event j :
  processingIndices (ui j) = ∅ ->
  processingIndices (ui (job_of (on_event file_name event j))) = ∅.
Proof.
  intros He. destruct event as [message| | | |]; cbn [on_event job_of].
  - cbn. now destruct (phase_of_status message).
  - reflexivity.
  - cbn. rewrite He. apply empty_difference_L.
  - destruct (World_saveToHistory _ _) as [w [item|err]]; reflexivity.
  - exact He.
Qed.

Lemma for_await_processing_empty events : forall j,
  processingIndices (ui j) = ∅ ->
  processingIndices (ui (job_of (for_await file_name events j))) = ∅.
Proof.
  induction events as [|event rest IH]; intros j Hj; [exact Hj|].
  cbn [for_await]. pose proof (on_event_processing_empty event j Hj) as H1.
  destruct (on_event file_name event j) as [j1|err j1]; cbn [job_of] in *.
  - now apply IH.
  - exact H1.
Qed.

(** X18: the set of indices being processed is empty at the end of every
    job: the handler only ever empties it or removes from it. *)
Theorem processing_indices_stay_empty (res : Api.response) (s : State) (w : World) :
  processingIndices (ui (handleFileSelect JSON_parse file_name res s w)) = ∅.
Proof.
  unfold handleFileSelect, consume.
  pose proof (for_await_processing_empty (fst (Api.analyzeStream JSON_parse res))
                (start file_name s w) eq_refl) as H.
  destruct (for_await file_name _ _) as [j1|err j1]; cbn [job_of] in H.
  - now destruct (snd _).
  - exact H.
Qed.

Lemma includes_of_prefix (b s : string) :
  String.prefix b s = true -> includes s b = true.
Proof.
  intros H. destruct s; cbn [includes]; rewrite H; reflexivity.
Qed.

Lemma includes_tail (b : string) c (s : string) :
  includes s b = true -> includes (String c s) b = true.
Proof.
  intros H. cbn [includes]. rewrite H. now destruct (String.prefix b (String c s)).
Qed.

Lemma prefix_includes (a b : string) : forall s : string,
  String.prefix (String.append a b) s = true -> includes s b = true.
Proof.
  induction a as [|c a IH]; intros s H.
  - now apply includes_of_prefix.
  - destruct s as [|c' s]; simpl in H; [discriminate|].
    destruct (Ascii.ascii_dec c c'); [|discriminate].
    apply includes_tail. now apply IH.
Qed.

Lemma includes_suffix (a b s : string) :
  includes s (String.append a b) = true -> includes s b = true.
Proof.
  induction s as [|c s IH]; intros H.
  - apply (prefix_includes a b). cbn [includes] in H.
    now destruct (String.prefix (String.append a b) "").
  - cbn [includes] in H.
    destruct (String.prefix (String.append a b) (String c s)) eqn:E.
    + now apply (prefix_includes a b).
    + apply includes_tail. now apply IH.
Qed.

(** X19: of the seven tests of the status case two never change the
    outcome: a message with "Extracting keywords" has "keywords", and one
    with "Analyzing compliance" has "compliance".  The phase a status
    message sets is the one the other five tests decide. *)
Theorem phase_of_status_keywords (message : string) :
  phase_of_status message = phase_by_keyword message.
Proof.
  unfold phase_of_status, phase_by_keyword.
  destruct (includes message "Extracting questions"); [reflexivity|].
  destruct (includes message "keywords") eqn:K.
  - now rewrite orb_true_r.
  - destruct (includes message "Extracting keywords") eqn:EK.
    + apply (includes_suffix "Extracting " "keywords") in EK. congruence.
    + cbn [orb].
      destruct (includes message "Searching" || includes message "search");
        [reflexivity|].
      destruct (includes message "compliance") eqn:C.
      * now rewrite orb_true_r.
      * destruct (includes message "Analyzing compliance") eqn:AC; [|reflexivity].
        apply (includes_suffix "Analyzing " "compliance") in AC. congruence.
Qed.

Lemma on_event_keeps_answered event j (i : Z) :
  is_Some (answers (ui j) !! i) ->
  is_Some (answers (ui (job_of (on_event file_name event j))) !! i).
Proof.
  intros Hi. destruct event as [message| | index answer pr | |]; cbn [on_event job_of].
  - cbn. now destruct (phase_of_status message).
  - exact Hi.
  - cbn. destruct (decide (index = i)) as [->|Hne].
    + rewrite lookup_insert_eq. eauto.
    + now rewrite lookup_insert_ne.
  - destruct (World_saveToHistory _ _) as [w [item|err]]; exact Hi.
  - exact Hi.
Qed.

Lemma for_await_keeps_answered events (i : Z) : forall j,
  is_Some (answers (ui j) !! i) ->
  is_Some (answers (ui (job_of (for_await file_name events j))) !! i).
Proof.
  induction events as [|event rest IH]; intros j Hj; [exact Hj|].
  cbn [for_await]. pose proof (on_event_keeps_answered event j i Hj) as H1.
  destruct (on_event file_name event j) as [j1|err j1]; cbn [job_of] in *.
  - now apply IH.
  - exact H1.
Qed.

(** X20: once the answer event for an index has been handled, the question
    at that index is not shown as being processed again for the rest of
    the job, whatever events follow. *)
Theorem answered_never_processing_again (index : Z) answer pr
    (later : list SSEEvent) (j : Job) :
  let answered := job_of (on_event file_name (SSEAnswerEvent index answer pr) j) in
  isQuestionProcessing (ui (job_of (for_await file_name later answered))) index = false.
Proof.
  cbn zeta.
  pose proof (for_await_keeps_answered later index
                (job_of (on_event file_name (SSEAnswerEvent index answer pr) j))) as H.
  destruct H as [a Ha].
  - cbn. rewrite lookup_insert_eq. eauto.
  - unfold isQuestionProcessing. rewrite Ha. now destruct (phase _).
Qed.

End PhaseOpsFacts.

(** ** The phase indicators *)

Section ProgressBarFacts.

Import PhasePage ProgressBar.

(** X21: the circles of the progress bar follow the order of the phases:
    the phases before the current one are checked, the current one pulses,
    the later ones are numbered; at [complete] all five are checked. *)
Theorem circles_follow_phase (phase : AnalysisPhase) :
  circles phase =
    if isComplete phase then replicate 5 Checked
    else replicate (phase_rank phase) Checked
           ++ Pulsing :: replicate (4 - phase_rank phase) Numbered.
Proof. destruct phase; reflexivity. Qed.

End ProgressBarFacts.

(** ** The address of the service *)

Section ApiUrlFacts.

Import ApiUrl.

(** X22: the address posted to is [/api/analyze/stream], relative to the
    page, unless the page is served from [localhost] or [127.0.0.1]; there
    it is the address in [NEXT_PUBLIC_API_URL], or
    [http://localhost:8000] when that is unset or empty, followed by
    [/analyze/stream] without the [/api] prefix. *)
Theorem fullUrl_cases (env : Env) :
  (fullUrl env = "/api/analyze/stream"%string
   /\ hostname env <> Some "localhost"%string
   /\ hostname env <> Some "127.0.0.1"%string)
  \/ (fullUrl env =
        String.append
          (or_default (NEXT_PUBLIC_API_URL env) "http://localhost:8000")
          "/analyze/stream"
      /\ or_default (NEXT_PUBLIC_API_URL env) "http://localhost:8000" <> ""%string
      /\ (hostname env = Some "localhost"%string
          \/ hostname env = Some "127.0.0.1"%string)).
Proof.
  assert (Hne : or_default (NEXT_PUBLIC_API_URL env) "http://localhost:8000" <> ""%string).
  { unfold or_default. destruct (NEXT_PUBLIC_API_URL env) as [[|c v]|]; discriminate. }
  unfold fullUrl, getApiPrefix, getApiUrl.
  destruct (hostname env) as [h|]; [|left; repeat split; discriminate].
  destruct (String.eqb_spec h "localhost") as [->|H1]; cbn [orb].
  - right. split; [|split; [exact Hne|now left]].
    destruct (or_default _ _); [done|reflexivity].
  - destruct (String.eqb_spec h "127.0.0.1") as [->|H2].
    + right. split; [|split; [exact Hne|now right]].
      destruct (or_default _ _); [done|reflexivity].
    + left. repeat split; congruence.
Qed.

End ApiUrlFacts.

(** ** More of the decoder loop *)

Section FramingFacts.

Import Api Framing.

Variable JSON_parse : text -> option SSEEvent.

Lemma well_formed_no_newline (l : stream_line) :
  well_formed JSON_parse l -> NEWLINE ∉ line_text l.
Proof.
  destruct l as [payload event|line]; cbn [well_formed line_text].
  - intros [Hn _]. now apply record_line_no_newline.
  - intros [Hn _]. now apply no_newline_spec.
Qed.

Lemma well_formed_yield (l : stream_line) :
  well_formed JSON_parse l -> yield_line JSON_parse (line_text l) = line_events l.
Proof.
  destruct l as [payload event|line]; cbn [well_formed line_text line_events].
  - intros [_ Hp]. now rewrite yield_record_line, Hp.
  - intros [_ [Hs|Hp]]; unfold yield_line.
    + now rewrite Hs.
    + rewrite Hp. now destruct (startsWith line DATA_PREFIX).
Qed.

Lemma well_formed_lines (ls : list stream_line) :
  Forall (well_formed JSON_parse) ls ->
  Forall (fun l => NEWLINE ∉ l) (map line_text ls)
  /\ yield_lines JSON_parse (map line_text ls) = flat_map line_events ls.
Proof.
  induction 1 as [|l ls Hl _ [IHn IHy]]; [split; [constructor|reflexivity]|].
  split.
  - constructor; [now apply well_formed_no_newline|exact IHn].
  - cbn [map yield_lines flat_map]. rewrite (well_formed_yield l Hl).
    f_equal. exact IHy.
Qed.

(** What the generator yields on newline-closed lines followed by a rest
    without newline. *)
Lemma lines_then_rest (ls : list stream_line) (rest : text) chunks fin :
  Forall (well_formed JSON_parse) ls ->
  NEWLINE ∉ rest ->
  decoded_text chunks = framed (map line_text ls) ++ rest ->
  analyzeStream JSON_parse (Body chunks fin) =
    (flat_map line_events ls, completion_of fin).
Proof.
  intros Hls Hrest Htext. destruct (well_formed_lines ls Hls) as [Hn Hy].
  unfold analyzeStream. f_equal.
  rewrite read_loop_lines by apply not_elem_of_nil.
  cbn [app]. fold (decoded_text chunks). rewrite Htext.
  rewrite split_framed by exact Hn.
  rewrite split_no_newline by exact Hrest.
  rewrite removelast_app_ne by discriminate.
  cbn [removelast]. now rewrite app_nil_r.
Qed.

(** X23: on a stream of newline-closed lines, each a record that parses or
    a line of another kind (no marker, or a payload that [JSON.parse]
    rejects), the generator yields the event of every record once, in
    the order of the stream, and nothing for the other lines, however many
    there are and however the bytes are cut into chunks. *)
Theorem records_yielded_in_order (ls : list stream_line) chunks fin :
  Forall (well_formed JSON_parse) ls ->
  decoded_text chunks = framed (map line_text ls) ->
  analyzeStream JSON_parse (Body chunks fin) =
    (flat_map line_events ls, completion_of fin).
Proof.
  intros Hls Htext. apply (lines_then_rest ls []); [exact Hls|apply not_elem_of_nil|].
  now rewrite app_nil_r.
Qed.

(** X24: a last record that is not closed by a newline is never yielded,
    also when it is complete and parses: the stream ends with it still in
    the buffer. *)
Theorem unterminated_record_not_yielded (ls : list stream_line)
    (payload : text) (event : SSEEvent) chunks :
  Forall (well_formed JSON_parse) ls ->
  no_newline payload = true ->
  JSON_parse payload = Some event ->
  decoded_text chunks = framed (map line_text ls) ++ record_line payload ->
  analyzeStream JSON_parse (Body chunks Done) =
    (flat_map line_events ls, Returned).
Proof.
  intros Hls Hn _ Htext.
  apply (lines_then_rest ls (record_line payload) chunks Done);
    [exact Hls|now apply record_line_no_newline|exact Htext].
Qed.

Lemma ascii_byte (c : Z) :
  is_ascii c = true ->
  Z.of_N (Byte.to_N (default x00 (Byte.of_N (Z.to_N c)))) = c.
Proof.
  unfold is_ascii. intros H. apply andb_prop in H as [H0 H1].
  apply Z.leb_le in H0. apply Z.ltb_lt in H1.
  pose proof (Byte.to_of_N_option_map (Z.to_N c)) as E.
  destruct (N.leb_spec (Z.to_N c) 255) as [_|Hbig]; [|lia].
  destruct (Byte.of_N (Z.to_N c)) as [b|]; [|discriminate].
  cbn in *. injection E as ->. lia.
Qed.

Lemma decode_byte_ascii st (c : Z) :
  is_ascii c = true ->
  TextDecoder.bytes_needed st = 0 ->
  snd (TextDecoder.decode_byte st (default x00 (Byte.of_N (Z.to_N c)))) = [c]
  /\ TextDecoder.bytes_needed
       (fst (TextDecoder.decode_byte st (default x00 (Byte.of_N (Z.to_N c))))) = 0.
Proof.
  intros Hc Hst. unfold TextDecoder.decode_byte. rewrite (ascii_byte c Hc).
  unfold is_ascii in Hc. apply andb_prop in Hc as [H0 H1].
  apply Z.leb_le in H0. apply Z.ltb_lt in H1.
  unfold TextDecoder.run_byte, TextDecoder.handler, TextDecoder.in_range.
  rewrite Hst. cbn [Z.eqb].
  replace (0x00 <=? c) with true by (symmetry; apply Z.leb_le; lia).
  replace (c <=? 0x7F) with true by (symmetry; apply Z.leb_le; lia).
  cbn [andb TextDecoder.emitted TextDecoder.serialize].
  destruct (TextDecoder.bom_seen st); cbn [fst snd TextDecoder.with_bom TextDecoder.bytes_needed].
  - split; [reflexivity|exact Hst].
  - replace (c =? TextDecoder.BOM) with false
      by (symmetry; apply Z.eqb_neq; unfold TextDecoder.BOM; lia).
    split; [reflexivity|exact Hst].
Qed.

Lemma decode_ascii (t : text) : forall st,
  forallb is_ascii t = true ->
  TextDecoder.bytes_needed st = 0 ->
  snd (TextDecoder.decode st (ascii_bytes t)) = t.
Proof.
  induction t as [|c t IH]; intros st Ht Hst; [reflexivity|].
  cbn [forallb] in Ht. apply andb_prop in Ht as [Hc Ht].
  cbn [ascii_bytes map TextDecoder.decode].
  destruct (decode_byte_ascii st c Hc Hst) as [Hout Hnext].
  destruct (TextDecoder.decode_byte st _) as [st1 out1]. cbn [fst snd] in *.
  specialize (IH st1 Ht Hnext). unfold ascii_bytes in IH.
  destruct (TextDecoder.decode st1 _) as [st2 out2]. cbn [fst snd] in *.
  now rewrite Hout, IH.
Qed.

(** X25: on a stream of ASCII bytes that spell newline-closed lines, each a
    record that parses or a line of another kind, [analyzeStream] yields
    the event of every record once and in order, wherever the bytes are cut
    into chunks: the bytes decide the events. *)
Theorem ascii_records_yielded (ls : list stream_line) chunks fin :
  Forall (well_formed JSON_parse) ls ->
  forallb is_ascii (framed (map line_text ls)) = true ->
  concat chunks = ascii_bytes (framed (map line_text ls)) ->
  analyzeStream JSON_parse (Body chunks fin) =
    (flat_map line_events ls, completion_of fin).
Proof.
  intros Hls Hascii Hbytes.
  apply (lines_then_rest ls []); [exact Hls|apply not_elem_of_nil|].
  rewrite app_nil_r. unfold decoded_text. rewrite Hbytes.
  now apply decode_ascii.
Qed.

End FramingFacts.


(** ** The further properties at concrete streams, stores and jobs *)

Section MoreInstances.

Import Samples MoreSamples.

(** An append to the store with room for ten. *)
Lemma saveToHistory_within_cap_witness :
  (1 <= length (History.getHistory
          (fst (History.saveToHistory (uuid_of 0) (time_of 0) (payload_of 0) tight_store)))
     <= 50)%nat.
Proof.
  apply (saveToHistory_within_cap (uuid_of 0) (time_of 0) (payload_of 0) tight_store
           _ (History.entry_of (request 0))).
  reflexivity.
Defined.

Lemma saveToHistory_keeps_ids_distinct_witness :
  NoDup (HistoryOps.ids
           (fst (History.saveToHistory (uuid_of 0) (time_of 0) (payload_of 0) tight_store))).
Proof.
  apply (saveToHistory_keeps_ids_distinct (uuid_of 0) (time_of 0) (payload_of 0)
           tight_store _ (History.entry_of (request 0))).
  - apply (bool_decide_unpack _). vm_compute. reflexivity.
  - apply (bool_decide_unpack _). vm_compute. reflexivity.
  - reflexivity.
Defined.

Lemma delete_absent_id_witness :
  History.getHistory (after_delete "uuid-7" stocked_store)
    = History.getHistory stocked_store.
Proof.
  apply (delete_absent_id "uuid-7" stocked_store).
  - apply (bool_decide_unpack _). vm_compute. reflexivity.
  - reflexivity.
Defined.

Lemma delete_removes_id_witness :
  ("uuid-101"%string ∉ HistoryOps.ids (after_delete "uuid-101" stocked_store))
  /\ (History.getHistory (after_delete "uuid-101" stocked_store)
        `sublist_of` History.getHistory stocked_store)
  /\ (forall item, item ∈ History.getHistory stocked_store ->
        id item <> "uuid-101"%string ->
        item ∈ History.getHistory (after_delete "uuid-101" stocked_store)).
Proof.
  apply (delete_removes_id "uuid-101" stocked_store). reflexivity.
Defined.

Lemma save_then_delete_witness :
  exists s1 s2,
    History.saveToHistory (uuid_of 0) (time_of 0) (payload_of 0) stocked_store
      = (s1, inl (History.entry_of (request 0)))
    /\ HistoryOps.deleteFromHistory (uuid_of 0) s1 = inl s2
    /\ History.getHistory s2 = History.getHistory stocked_store.
Proof.
  apply (save_then_delete (uuid_of 0) (time_of 0) (payload_of 0) stocked_store).
  - split; [reflexivity|]. intros v _. reflexivity.
  - apply (bool_decide_unpack _). vm_compute. reflexivity.
  - vm_compute. lia.
Defined.

Lemma delete_removes_one_witness :
  S (length (History.getHistory (after_delete "uuid-101" stocked_store)))
    = length (History.getHistory stocked_store).
Proof.
  apply (delete_removes_one "uuid-101" stocked_store).
  - apply (bool_decide_unpack _). vm_compute. reflexivity.
  - apply (bool_decide_unpack _). vm_compute. reflexivity.
  - reflexivity.
Defined.

Lemma save_over_unreadable_witness :
  History.getHistory unreadable_store = []
  /\ History.getHistory
       (fst (History.saveToHistory (uuid_of 0) (time_of 0) (payload_of 0) unreadable_store))
     = [History.entry_of (request 0)]
  /\ History.item
       (fst (History.saveToHistory (uuid_of 0) (time_of 0) (payload_of 0) unreadable_store))
     = History.Serialized [History.entry_of (request 0)].
Proof.
  apply (save_over_unreadable (uuid_of 0) (time_of 0) (payload_of 0) unreadable_store
           _ (History.entry_of (request 0))).
  - now left.
  - reflexivity.
Defined.

Lemma clear_then_save_witness :
  History.getHistory cleared_store = []
  /\ History.getHistory
       (fst (History.saveToHistory (uuid_of 0) (time_of 0) (payload_of 0) cleared_store))
     = [History.entry_of (request 0)].
Proof.
  apply (clear_then_save (uuid_of 0) (time_of 0) (payload_of 0) stocked_store
           cleared_store _ (History.entry_of (request 0))).
  - reflexivity.
  - reflexivity.
Defined.

Lemma no_terminal_event_stays_analyzing_witness :
  let j := Page.handleFileSelect JSON_parse "audit.pdf"
             (Api.Body status_chunks Api.Done) idle_page (browser stocked_store) in
  Page.analysisState (Page.ui j) = st_analyzing
  /\ Page.error (Page.ui j) = None
  /\ Page.world j = browser stocked_store.
Proof.
  apply (no_terminal_event_stays_analyzing JSON_parse "audit.pdf"
           (Api.Body status_chunks Api.Done) idle_page (browser stocked_store)).
  - reflexivity.
  - vm_compute. repeat constructor.
Defined.

Lemma read_failure_keeps_partial_results_witness :
  let failed := Page.handleFileSelect JSON_parse "audit.pdf"
                  (Api.Body status_chunks (Api.ReadRejected (ErrorObject "network error")))
                  idle_page (browser stocked_store) in
  let ended := Page.handleFileSelect JSON_parse "audit.pdf"
                 (Api.Body status_chunks Api.Done) idle_page (browser stocked_store) in
  Page.analysisState (Page.ui failed) = st_error
  /\ Page.error (Page.ui failed) = Some "network error"%string
  /\ Page.questions (Page.ui failed) = Page.questions (Page.ui ended)
  /\ Page.answers (Page.ui failed) = Page.answers (Page.ui ended)
  /\ Page.progress (Page.ui failed) = Page.progress (Page.ui ended)
  /\ Page.world failed = Page.world ended.
Proof.
  apply (read_failure_keeps_partial_results JSON_parse "audit.pdf" status_chunks
           (ErrorObject "network error") idle_page (browser stocked_store)).
  vm_compute. repeat constructor.
Defined.

Lemma answer_in_range_updates_card_witness :
  exists j',
    Page.on_event "audit.pdf"
      (SSEAnswerEvent (Z.of_nat 1) answer_not_met (progress_of 1 2 0 1 0))
      job_with_two_questions = Page.Next j'
    /\ Page.cards (Page.ui j') =
         <[1%nat := ("Is MFA enforced?"%string, Some answer_not_met)]>
           (Page.cards (Page.ui job_with_two_questions)).
Proof.
  apply (answer_in_range_updates_card "audit.pdf" 1 "Is MFA enforced?" answer_not_met
           (progress_of 1 2 0 1 0) job_with_two_questions).
  reflexivity.
Defined.

Lemma complete_shows_stored_count_witness :
  Page.historyCount (Page.ui job_completed)
    = length (History.getHistory (localStorage (Page.world job_completed)))
  /\ (1 <= Page.historyCount (Page.ui job_completed) <= 50)%nat.
Proof.
  apply (complete_shows_stored_count "audit.pdf" 2 1 1 0 job_with_two_questions
           job_completed).
  reflexivity.
Defined.

Lemma select_saved_entry_restores_witness :
  let j := Page.handleFileSelect JSON_parse "audit.pdf" completed_response
             idle_page (browser stocked_store) in
  exists item older,
    History.getHistory (localStorage (Page.world j)) = item :: older
    /\ forall s0,
         let v := PageOps.handleSelectHistory item s0 in
         Page.currentFilename v = Page.currentFilename (Page.ui j)
         /\ Page.questions v = Page.questions (Page.ui j)
         /\ Page.answers v = Page.answers (Page.ui j)
         /\ Page.progress v = Page.progress (Page.ui j)
         /\ Page.analysisState v = Page.analysisState (Page.ui j).
Proof.
  apply (select_saved_entry_restores JSON_parse "audit.pdf" completed_response
           idle_page (browser stocked_store) [status_event] 1 1 0 0).
  - split; [reflexivity|]. intros v _. reflexivity.
  - vm_compute. reflexivity.
  - repeat constructor.
Defined.

Lemma records_yielded_in_order_witness :
  Api.analyzeStream JSON_parse (Api.Body mixed_stream Api.Done)
    = ([status_event; complete_event], Api.Returned).
Proof.
  apply (records_yielded_in_order JSON_parse mixed_lines mixed_stream Api.Done).
  - constructor; [now split|].
    constructor; [split; [reflexivity|now left]|].
    constructor; [split; [reflexivity|now right]|].
    constructor; [now split|constructor].
  - vm_compute. reflexivity.
Defined.

Lemma unterminated_record_not_yielded_witness :
  Api.analyzeStream JSON_parse (Api.Body unterminated_stream Api.Done)
    = ([status_event], Api.Returned).
Proof.
  apply (unterminated_record_not_yielded JSON_parse
           [Framing.Record_ status_record status_event]
           complete_record complete_event unterminated_stream).
  - repeat constructor.
  - reflexivity.
  - reflexivity.
  - vm_compute. reflexivity.
Defined.

Lemma ascii_records_yielded_witness :
  Api.analyzeStream JSON_parse (Api.Body mixed_stream Api.Done)
    = ([status_event; complete_event], Api.Returned).
Proof.
  apply (ascii_records_yielded JSON_parse mixed_lines mixed_stream Api.Done).
  - constructor; [now split|].
    constructor; [split; [reflexivity|now left]|].
    constructor; [split; [reflexivity|now right]|].
    constructor; [now split|constructor].
  - reflexivity.
  - vm_compute. reflexivity.
Defined.

End MoreInstances.
